(** * The launch routine of the Lambda renderer

    A shallow embedding of [packages/lambda/src/functions/launch.ts]
    ([innerLaunchHandler], its [onProgress] callback and [launchHandler]),
    followed by the properties of the launch protocol.

    The routine is asynchronous, single-threaded code.  It is embedded as
    a run: the list of events performed, in program order, and then either
    an exception or a value.  What the collaborators of the routine answer
    (the store, the function invoker, the concatenator, the clock) is read
    from a [World].

    JavaScript numbers: frame counts and timestamps are integers and are
    embedded as [Z]; the fraction [framesEncoded / durationInFrames] and
    the arithmetic of the throttle are IEEE 754 double-precision numbers,
    as in JavaScript, and are embedded as the primitive binary64 floats of
    [PrimFloat], whose operations round to nearest, ties to even. *)

From Stdlib Require Import Floats.
From Stdlib Require Import List String ZArith QArith Bool Arith Lia Sorted.
Import ListNotations.

Set Implicit Arguments.

Local Open Scope Z_scope.

(** ** Data *)

Module Data.

(** [Privacy] of [../shared/constants]: 'public' | 'private'. *)
Inductive Privacy := Public | Private.

(** A frame range [[start, end]] produced by the planner. *)
Definition FrameRange : Type := (Z * Z)%type.

(** The composition returned by [validateComposition]. *)
Record VideoConfig := {
  compId : string;
  durationInFrames : Z;
  fps : Z;
  height : Z;
  width : Z
}.

(** The launch variant of [LambdaPayload]; [framesPerLambda] is [None]
    when the caller left it out (null or undefined). *)
Record LaunchParams := {
  serveUrl : string;
  composition : string;
  framesPerLambda : option Z;
  bucketName : string;
  renderId : string;
  codec : string;
  imageFormat : string;
  maxRetries : Z;
  privacy : Privacy;
  enableChunkOptimization : bool;
  saveBrowserLogs : bool
}.

(** The renderer variant of [LambdaPayload], built once per chunk
    (launch.ts 103-130). *)
Record RendererPayload := {
  r_frameRange : FrameRange;
  r_serveUrl : string;
  r_chunk : Z;
  r_composition : string;
  r_fps : Z;
  r_height : Z;
  r_width : Z;
  r_durationInFrames : Z;
  r_bucketName : string;
  r_retriesLeft : Z;
  r_renderId : string;
  r_imageFormat : string;
  r_codec : string;
  r_privacy : Privacy;
  r_saveBrowserLogs : bool;
  r_attempt : Z
}.

(** [LambdaPayload] is a union discriminated by its [type] field. *)
Inductive LambdaPayload :=
| PLaunch (p : LaunchParams)
| PRenderer (p : RendererPayload)
| PFire (payloads : list RendererPayload) (fireRenderId : string)
| POtherRoutine.

Record Options := { expectedBucketOwner : string }.

(** The optimization file of a composition, as far as the launch reads it. *)
Record Optimization := {
  o_frameRange : list FrameRange;
  o_frameCount : Z
}.

Record RenderMetadata := {
  startedDate : Z;
  videoConfig : VideoConfig;
  totalChunks : nat;
  estimatedTotalLambdaInvokations : nat;
  estimatedRenderLambdaInvokations : nat;
  compositionId : string;
  m_codec : string;
  usesOptimizationProfile : bool;
  m_framesPerLambda : option Z;
  m_renderId : string
}.

Record EncodingProgress := {
  framesEncoded : Z;
  totalFrames : Z;
  doneIn : option Z;
  timeToInvoke : option Z
}.

(** The record handed to [writeLambdaError]; [type] is always 'stitcher'
    in this file and is left out. *)
Record ErrorInfo := {
  e_chunk : option Z;
  e_frame : option Z;
  isFatal : bool;
  stack : string;
  tmpDir : option string;
  attempt : Z;
  totalAttempts : Z;
  willRetry : bool
}.

Record PostRenderData := {
  pr_renderMetadata : RenderMetadata;
  pr_timeToEncode : Z;
  pr_timeToDelete : Z
}.

(** The keys of [../shared/constants], kept symbolic. *)
Inductive Key :=
| renderMetadataKey (renderId : string)
| encodingProgressKey (renderId : string)
| outName (renderId : string) (codec : string).

Inductive Body :=
| JsonRenderMetadata (m : RenderMetadata)
| JsonEncodingProgress (p : EncodingProgress)
| ReadStream (outfile : string).

(** What [concatVideosS3] resolves to; [cleanupChunksProm] is the pending
    call [CleanupChunks] below. *)
Record ConcatResult := {
  outfile : string;
  encodingStart : Z
}.

(** One call of the progress callback by the concatenator, with the
    reading of the clock at that moment. *)
Record Observation := {
  ob_framesEncoded : Z;
  ob_start : Z;
  ob_now : Z
}.

End Data.
Import Data.

(** ** Events and runs *)

(** The calls the routine makes to its collaborators. *)
Inductive Call :=
| GetBrowserInstance
| GetOptimization
| ValidateComposition
| LambdaWriteFile (key : Key) (body : Body) (privacy : Privacy)
| Invoke (index : nat) (payloads : list RendererPayload)
| ConcatVideosS3
| WriteLambdaError (info : ErrorInfo)
| CollectChunkInformation
| WriteOptimization
| LambdaLs
| InspectErrors
| CleanupFiles
| WritePostRenderData (data : PostRenderData)
| CleanupChunks
| RmOutfile (path : string).

(** [Started c]: the call was made and its promise is pending.
    [Settled c ok]: the routine observed the promise fulfilled ([true]) or
    rejected ([false]), at an [await], a join or a [catch].
    [ConsoleLog]: the [console.log] of the top-level handler. *)
Inductive Event :=
| Started (c : Call)
| Settled (c : Call) (ok : bool)
| ConsoleLog.

Inductive Validator :=
| FramesPerLambda | DurationInFrames | Fps | Height | Width | PrivacySetting.

Inductive Exn :=
| ExpectedLaunchType
| FramesPerLambdaMissing
| Invalid (v : Validator)
| Rejected (c : Call).

Definition Run (A : Type) : Type := (list Event * (Exn + A))%type.

Definition trace {A} (m : Run A) : list Event := fst m.
Definition result {A} (m : Run A) : Exn + A := snd m.

Definition ret {A} (a : A) : Run A := ([], inr a).
Definition throw {A} (e : Exn) : Run A := ([], inl e).
Definition emit (e : Event) : Run unit := ([e], inr tt).

Definition bind {A B} (m : Run A) (k : A -> Run B) : Run B :=
  match m with
  | (t, inl e) => (t, inl e)
  | (t, inr a) => let (t', r) := k a in (t ++ t', r)
  end.

Declare Scope run_scope.
Delimit Scope run_scope with run.
Notation "'let!' x ':=' m 'in' k" := (bind m (fun x => k))
  (at level 10, x pattern, m at level 100, k at level 200) : run_scope.
Notation "m ';;' k" := (bind m (fun _ => k))
  (at level 100, k at level 200, right associativity) : run_scope.
Local Open Scope run_scope.

(** What a collaborator answers: a value, or a rejection. *)
Inductive Outcome (A : Type) :=
| Fulfilled (a : A)
| Fails.
Arguments Fails {A}.

Definition fulfilled {A} (o : Outcome A) : bool :=
  match o with Fulfilled _ => true | Fails => false end.

(** Making a call: the promise is created. *)
Definition start (c : Call) : Run unit := emit (Started c).

(** Awaiting a pending call. *)
Definition settle {A} (c : Call) (o : Outcome A) : Run A :=
  match o with
  | Fulfilled a => ([Settled c true], inr a)
  | Fails => ([Settled c false], inl (Rejected c))
  end.

(** [await f(x)]: the call is made and awaited in place. *)
Definition await {A} (c : Call) (o : Outcome A) : Run A :=
  start c ;; settle c o.

Definition ofBool (b : bool) : Outcome unit :=
  if b then Fulfilled tt else Fails.

(** ** The collaborators *)

(** Everything the routine obtains from outside of launch.ts: the answers
    of the asynchronous calls, the readings of the clock, and the pure
    helpers of the repository that the launch only calls. *)
Record World := {
  (* launch.ts 63-72 *)
  browserInstance : Outcome unit;
  optimization : Outcome (option Optimization);
  (* 74-87 *)
  validatedComposition : Outcome VideoConfig;
  validFps : Z -> bool;
  validDimension : Z -> bool;
  validPrivacy : Privacy -> bool;
  (* 92-98 *)
  planFrameRanges :
    Z -> Z -> Z -> option Optimization -> bool -> list FrameRange * bool;
  (* 132: Date.now() *)
  nowAtLaunch : Z;
  (* 157 *)
  metadataWritten : bool;
  (* 175: the answer to the submission of group [index] *)
  invoked : nat -> bool;
  (* 241: the calls of onProgress made by the concatenator, the answer to
     the write of the k-th of them, and what concatVideosS3 resolves to *)
  observations : list Observation;
  progressWritten : nat -> bool;
  concatenated : Outcome ConcatResult;
  (* 252: Date.now() *)
  nowAfterConcat : Z;
  (* 255 *)
  outputWritten : bool;
  (* 267-294 *)
  chunkInformation : Outcome unit;
  isValidOptimizationProfile : bool;
  optimizationWritten : bool;
  (* 297-305: what lambdaLs resolves to, and whether it settles before
     the write of the optimization profile does *)
  listing : Outcome unit;
  listingSettlesFirst : bool;
  (* 310 *)
  timeToInvokeLambdas : option Z;
  (* 317 *)
  finalProgressWritten : bool;
  (* 326, 339 *)
  errorsInspected : bool;
  filesCleaned : Outcome Z;
  (* 359 *)
  postRenderDataWritten : bool;
  (* 367 *)
  chunksCleaned : bool;
  outfileRemoved : bool;
  (* 382-397 *)
  errorWritten : bool;
  stackOf : Exn -> string;
  getTmpDirStateIfENoSp : string -> option string
}.

(** ** Pure helpers *)

(** Modelled from the spec: [validateFramesPerLambda] of
    [../api/validate-frames-per-lambda] is not among the files embedded here.
    Section 4.1: "Fails with ValidationError if framesPerChunk<1". *)
Definition validateFramesPerLambda (n : Z) : Run unit :=
  if n <? 1 then throw (Invalid FramesPerLambda) else ret tt.

(** Modelled from the spec: [Internals.validateDurationInFrames] of the
    [remotion] package is not among the files embedded here.  Section 4.1:
    "Fails with ValidationError if ... frameCount<1". *)
Definition validateDurationInFrames (d : Z) : Run unit :=
  if d <? 1 then throw (Invalid DurationInFrames) else ret tt.

(** The validators whose rule the spec leaves open are answered by the
    world. *)
Definition check (ok : bool) (v : Validator) : Run unit :=
  if ok then ret tt else throw (Invalid v).

(** The kind "ValidationError" of section 7 of the spec: malformed frame
    size, invalid composition dimensions, fps or duration, invalid
    privacy.  launch.ts raises plain [Error]s; the kind is told by the
    place that raised. *)
Definition isValidationError (e : Exn) : bool :=
  match e with
  | FramesPerLambdaMissing | Invalid _ => true
  | ExpectedLaunchType | Rejected _ => false
  end.

(** [Math.ceil(a / b)] for [b <> 0]. *)
Definition ceilDiv (a b : Z) : Z := - ((- a) / b).

(** [Math.round(Math.sqrt(n))] on a length. *)
Definition roundSqrt (n : nat) : nat :=
  let s := Nat.sqrt n in
  if (s * s + s <? n)%nat then S s else s.

(** [chunks.slice().sort((a, b) => a[0] - b[0])]: a stable sort by the
    start of the range.  Each range travels with its position in
    [chunks], which stands for the identity of the array object:
    [sortedChunks.indexOf] compares by reference. *)
Fixpoint insertByStart (x : nat * FrameRange) (l : list (nat * FrameRange))
  : list (nat * FrameRange) :=
  match l with
  | [] => [x]
  | y :: l' =>
      if fst (snd y) <=? fst (snd x) then y :: insertByStart x l'
      else x :: y :: l'
  end.

Definition identified (chunks : list FrameRange) : list (nat * FrameRange) :=
  combine (seq 0 (List.length chunks)) chunks.

Definition sortedChunks (chunks : list FrameRange) : list (nat * FrameRange) :=
  fold_left (fun acc x => insertByStart x acc) (identified chunks) [].

Fixpoint indexOf (i : nat) (l : list (nat * FrameRange)) : Z :=
  match l with
  | [] => -1
  | y :: l' =>
      if Nat.eqb (fst y) i then 0
      else let r := indexOf i l' in if r <? 0 then -1 else r + 1
  end.

(** Modelled from the spec: [chunk] of [../shared/chunk] is not among
    the files embedded here.  Section 4.3, step 3: "Partition the payload list
    into `invokers` contiguous groups"; scenario A: five payloads and two
    invokers give groups of sizes 3 and 2.  The first group takes
    [ceil (length / groups)] items and the rest is split among the groups
    that remain. *)
Fixpoint chunk {A} (input : list A) (groups : nat) : list (list A) :=
  match groups with
  | O => []
  | S g =>
      let size := ((List.length input + g) / S g)%nat in
      firstn size input :: chunk (skipn size input) g
  end.

(** ** The progress callback (launch.ts 189-239) *)

(** The double of an integer count.  The conversion is exact up to
    [2 ^ 53] in absolute value and rounds to the nearest double up to
    [2 ^ 63], which no count of frames reaches. *)
Definition toFloat (z : Z) : float :=
  if z <? 0 then PrimFloat.opp (PrimFloat.of_uint63 (Uint63.of_Z (- z)))
  else PrimFloat.of_uint63 (Uint63.of_Z z).

(** The literal [0.1]: the double nearest to one tenth, which is
    [7205759403792794 * 2 ^ -56]. *)
Definition tenth : float := 0x1.999999999999ap-4%float.

(** [signed s x]: the double [x], read through [Prim2SF], is a number (a
    zero, an infinity or a finite number) of sign [s]. *)
Definition signed (s : bool) (x : spec_float) : Prop :=
  match x with
  | S754_zero s' | S754_infinity s' | S754_finite s' _ _ => s' = s
  | S754_nan => False
  end.

(** The order of doubles, as a relation: [<=] of JavaScript. *)
Definition fle (x y : float) : Prop := PrimFloat.leb x y = true.

(** The two variables captured by [onProgress]. *)
Record ProgressState := {
  lastProgressUploaded : float;
  encodingStop : option Z
}.

Definition initialProgress : ProgressState :=
  {| lastProgressUploaded := PrimFloat.zero; encodingStop := None |}.

(** Truthiness of a [number | null]. *)
Definition truthy (t : option Z) : bool :=
  match t with
  | None | Some 0 => false
  | Some _ => true
  end.

Definition relativeProgress (comp : VideoConfig) (o : Observation) : float :=
  PrimFloat.div (toFloat (ob_framesEncoded o)) (toFloat (durationInFrames comp)).

Definition progressWrite (p : LaunchParams) (e : EncodingProgress) : Call :=
  LambdaWriteFile (encodingProgressKey (renderId p)) (JsonEncodingProgress e)
    Private.

Definition progressWriteError (w : World) (c : Call) : ErrorInfo :=
  {| e_chunk := None; e_frame := None; isFatal := false;
     stack := "Could not upload stitching progress " ++ stackOf w (Rejected c);
     tmpDir := None; attempt := 1; totalAttempts := 1; willRetry := false |}.

(** The [k]-th call of [onProgress].  The write is not awaited; when the
    world rejects it, the [catch] callback runs and hands an [ErrorInfo]
    to [writeLambdaError], whose promise nobody observes. *)
Definition onProgress (w : World) (p : LaunchParams) (comp : VideoConfig)
    (k : nat) (st : ProgressState) (o : Observation)
  : ProgressState * list Event :=
  let relative := relativeProgress comp o in
  let deltaSinceLastProgressUploaded :=
    PrimFloat.sub relative (lastProgressUploaded st) in
  let stop :=
    if PrimFloat.eqb relative PrimFloat.one then Some (ob_now o)
    else encodingStop st in
  if PrimFloat.ltb deltaSinceLastProgressUploaded tenth then
    ({| lastProgressUploaded := lastProgressUploaded st;
        encodingStop := stop |}, [])
  else
    let encodingProgress :=
      {| framesEncoded := ob_framesEncoded o;
         totalFrames := durationInFrames comp;
         doneIn :=
           match stop with
           | Some t => if truthy stop then Some (t - ob_start o) else None
           | None => None
           end;
         timeToInvoke := None |} in
    let write := progressWrite p encodingProgress in
    ({| lastProgressUploaded := relative; encodingStop := stop |},
     Started write ::
       (if progressWritten w k then []
        else [Settled write false;
              Started (WriteLambdaError (progressWriteError w write))])).

(** The calls of [onProgress] that [concatVideosS3] makes, in order. *)
Fixpoint runProgress (w : World) (p : LaunchParams) (comp : VideoConfig)
    (k : nat) (st : ProgressState) (obs : list Observation)
  : ProgressState * list Event :=
  match obs with
  | [] => (st, [])
  | o :: obs' =>
      let (st1, evs1) := onProgress w p comp k st o in
      let (st2, evs2) := runProgress w p comp (S k) st1 obs' in
      (st2, evs1 ++ evs2)
  end.

(** ** The launch (launch.ts 52-368) *)

Definition emits {A} (evs : list Event) (a : A) : Run A := (evs, inr a).

Fixpoint startAll (calls : list Call) : Run unit :=
  match calls with
  | [] => ret tt
  | c :: calls' => start c ;; startAll calls'
  end.

(** The await of [Promise.all]: it rejects as soon as one member does.
    The members are observed in the order of the list.  When several
    members are rejected, which rejection the await sees is a matter of
    timing in JavaScript.  Where a property below tells which rejection
    fails the launch (the await of launch.ts 297), the order is read from
    the world; elsewhere the run takes the first rejection of the list,
    and the properties are stated so as to hold whichever it is. *)
Fixpoint joinAll (calls : list (Call * bool)) : Run unit :=
  match calls with
  | [] => ret tt
  | (c, ok) :: calls' => settle c (ofBool ok) ;; joinAll calls'
  end.

Definition lambdaPayloads (p : LaunchParams) (comp : VideoConfig)
    (chunks : list FrameRange) : list RendererPayload :=
  map (fun ic : nat * FrameRange =>
         {| r_frameRange := snd ic;
            r_serveUrl := serveUrl p;
            r_chunk := indexOf (fst ic) (sortedChunks chunks);
            r_composition := composition p;
            r_fps := fps comp;
            r_height := height comp;
            r_width := width comp;
            r_durationInFrames := durationInFrames comp;
            r_bucketName := bucketName p;
            r_retriesLeft := maxRetries p;
            r_renderId := renderId p;
            r_imageFormat := imageFormat p;
            r_codec := codec p;
            r_privacy := privacy p;
            r_saveBrowserLogs := saveBrowserLogs p;
            r_attempt := 1 |})
      (identified chunks).

Definition fireCalls (groups : list (list RendererPayload)) : list Call :=
  map (fun ig : nat * list RendererPayload => Invoke (fst ig) (snd ig))
      (combine (seq 0 (List.length groups)) groups).

Definition answered (w : World) (calls : list Call) : list (Call * bool) :=
  map (fun ic : nat * Call => (snd ic, invoked w (fst ic)))
      (combine (seq 0 (List.length calls)) calls).

Definition metadataWrite (p : LaunchParams) (m : RenderMetadata) : Call :=
  LambdaWriteFile (renderMetadataKey (renderId p)) (JsonRenderMetadata m)
    Private.

Definition outputWrite (p : LaunchParams) (c : ConcatResult) : Call :=
  LambdaWriteFile (outName (renderId p) (codec p)) (ReadStream (outfile c))
    (privacy p).

Definition innerLaunchHandler (w : World) (params : LambdaPayload)
    (options : Options) : Run unit :=
  match params with
  | PLaunch p =>
    match framesPerLambda p with
    | None | Some 0 => throw FramesPerLambdaMissing
    | Some fpl =>
      validateFramesPerLambda fpl ;;
      start GetBrowserInstance ;;
      start GetOptimization ;;
      settle GetBrowserInstance (browserInstance w) ;;
      let! optimization := settle GetOptimization (optimization w) in
      let! comp := await ValidateComposition (validatedComposition w) in
      validateDurationInFrames (durationInFrames comp) ;;
      check (validFps w (fps comp)) Fps ;;
      check (validDimension w (height comp)) Height ;;
      check (validDimension w (width comp)) Width ;;
      check (validPrivacy w (privacy p)) PrivacySetting ;;
      let chunkCount := ceilDiv (durationInFrames comp) fpl in
      let (chunks, didUseOptimization) :=
        planFrameRanges w chunkCount fpl (durationInFrames comp)
          optimization (enableChunkOptimization p) in
      let invokers := roundSqrt (List.length chunks) in
      let payloads := lambdaPayloads p comp chunks in
      let renderMetadata :=
        {| startedDate := nowAtLaunch w;
           videoConfig := comp;
           totalChunks := List.length chunks;
           estimatedTotalLambdaInvokations :=
             fold_left Nat.add [List.length chunks; invokers] O;
           estimatedRenderLambdaInvokations := List.length chunks;
           compositionId := compId comp;
           m_codec := codec p;
           usesOptimizationProfile := didUseOptimization;
           m_framesPerLambda := framesPerLambda p;
           m_renderId := renderId p |} in
      await (metadataWrite p renderMetadata) (ofBool (metadataWritten w)) ;;
      let payloadChunks := chunk payloads invokers in
      startAll (fireCalls payloadChunks) ;;
      joinAll (answered w (fireCalls payloadChunks)) ;;
      start ConcatVideosS3 ;;
      let (progress, progressEvents) :=
        runProgress w p comp O initialProgress (observations w) in
      emits progressEvents tt ;;
      let! concat := settle ConcatVideosS3 (concatenated w) in
      let stop :=
        match encodingStop progress with
        | Some t => if truthy (encodingStop progress) then t
                    else nowAfterConcat w
        | None => nowAfterConcat w
        end in
      await (outputWrite p concat) (ofBool (outputWritten w)) ;;
      let! chunkProm :=
        (if enableChunkOptimization p then
           await CollectChunkInformation (chunkInformation w) ;;
           if isValidOptimizationProfile w then
             start WriteOptimization ;;
             ret [(WriteOptimization, optimizationWritten w)]
           else ret []
         else ret []) in
      start LambdaLs ;;
      (if listingSettlesFirst w then
         settle LambdaLs (listing w) ;; joinAll chunkProm
       else
         joinAll chunkProm ;; settle LambdaLs (listing w)) ;;
      let finalEncodingProgress :=
        {| framesEncoded := durationInFrames comp;
           totalFrames := durationInFrames comp;
           doneIn := if truthy (Some stop)
                     then Some (stop - encodingStart concat) else None;
           timeToInvoke := timeToInvokeLambdas w |} in
      let finalWrite := progressWrite p finalEncodingProgress in
      start finalWrite ;;
      start InspectErrors ;;
      start CleanupFiles ;;
      settle InspectErrors (ofBool (errorsInspected w)) ;;
      let! timeToDelete := settle CleanupFiles (filesCleaned w) in
      let postRenderData :=
        {| pr_renderMetadata := renderMetadata;
           pr_timeToEncode := stop - encodingStart concat;
           pr_timeToDelete := timeToDelete |} in
      settle finalWrite (ofBool (finalProgressWritten w)) ;;
      await (WritePostRenderData postRenderData)
            (ofBool (postRenderDataWritten w)) ;;
      start (RmOutfile (outfile concat)) ;;
      joinAll [(CleanupChunks, chunksCleaned w);
               (RmOutfile (outfile concat), outfileRemoved w)]
    end
  | _ => throw ExpectedLaunchType
  end.

(** ** The handler (launch.ts 370-399) *)

Definition fatalError (w : World) (err : Exn) : ErrorInfo :=
  {| e_chunk := None; e_frame := None;
     stack := stackOf w err;
     isFatal := true;
     tmpDir := getTmpDirStateIfENoSp w (stackOf w err);
     attempt := 1; totalAttempts := 1; willRetry := false |}.

(** [try { body } catch (err) { handler }]. *)
Definition tryCatch {A} (body : Run A) (handler : Exn -> Run A) : Run A :=
  match body with
  | (t, inr a) => (t, inr a)
  | (t, inl err) => let (t', r) := handler err in (t ++ t', r)
  end.

Definition launchHandler (w : World) (params : LambdaPayload)
    (options : Options) : Run unit :=
  match params with
  | PLaunch p =>
      tryCatch (innerLaunchHandler w params options)
        (fun err =>
           emit ConsoleLog ;;
           await (WriteLambdaError (fatalError w err))
                 (ofBool (errorWritten w)))
  | _ => throw ExpectedLaunchType
  end.

(** ** Sample worlds *)

Module Sample.

Definition params : LaunchParams :=
  {| serveUrl := "https://site.example/bundle";
     composition := "main";
     framesPerLambda := Some 20;
     bucketName := "bucket";
     renderId := "render";
     codec := "h264";
     imageFormat := "jpeg";
     maxRetries := 3;
     privacy := Public;
     enableChunkOptimization := true;
     saveBrowserLogs := false |}.

Definition options : Options := {| expectedBucketOwner := "owner" |}.

Definition comp : VideoConfig :=
  {| compId := "main"; durationInFrames := 100; fps := 30;
     height := 1080; width := 1920 |}.

(** The default partition: slices of [framesPerLambda] frames. *)
Definition plan (chunkCount fpl frameCount : Z) (_ : option Optimization)
    (_ : bool) : list FrameRange * bool :=
  (map (fun i => (Z.of_nat i * fpl,
                  Z.min ((Z.of_nat i + 1) * fpl) frameCount - 1))
       (seq 0 (Z.to_nat chunkCount)), false).

Definition observe (frames now : Z) : Observation :=
  {| ob_framesEncoded := frames; ob_start := 1000; ob_now := now |}.

(** A world in which every collaborator answers well, except that the
    store answers the write of the RenderMetadata, the upload of the
    output and the write of the fatal error record as told. *)
Definition worldWith (metadataOk outputOk errorOk : bool) : World :=
  {| browserInstance := Fulfilled tt;
     optimization := Fulfilled None;
     validatedComposition := Fulfilled comp;
     validFps := fun f => 0 <? f;
     validDimension := fun d => 0 <? d;
     validPrivacy := fun _ => true;
     planFrameRanges := plan;
     nowAtLaunch := 900;
     metadataWritten := metadataOk;
     invoked := fun _ => true;
     observations := [observe 5 1100; observe 15 1200; observe 20 1300;
                      observe 100 1400];
     progressWritten := fun _ => true;
     concatenated := Fulfilled {| outfile := "/tmp/out.mp4";
                                  encodingStart := 1000 |};
     nowAfterConcat := 1500;
     outputWritten := outputOk;
     chunkInformation := Fulfilled tt;
     isValidOptimizationProfile := true;
     optimizationWritten := true;
     listing := Fulfilled tt;
     listingSettlesFirst := false;
     timeToInvokeLambdas := Some 70;
     finalProgressWritten := true;
     errorsInspected := true;
     filesCleaned := Fulfilled 12;
     postRenderDataWritten := true;
     chunksCleaned := true;
     outfileRemoved := true;
     errorWritten := errorOk;
     stackOf := fun _ => "Error: at launch"%string;
     getTmpDirStateIfENoSp := fun _ => None |}.

Definition world : World := worldWith true true true.

(** [world], except for the answers of the store to the write of the
    optimization profile and to the listing of the bucket, and for which
    of the two answers comes first. *)
Definition withOptimization (written : bool) (ls : Outcome unit)
    (lsFirst : bool) : World :=
  {| browserInstance := browserInstance world;
     optimization := optimization world;
     validatedComposition := validatedComposition world;
     validFps := validFps world;
     validDimension := validDimension world;
     validPrivacy := validPrivacy world;
     planFrameRanges := planFrameRanges world;
     nowAtLaunch := nowAtLaunch world;
     metadataWritten := metadataWritten world;
     invoked := invoked world;
     observations := observations world;
     progressWritten := progressWritten world;
     concatenated := concatenated world;
     nowAfterConcat := nowAfterConcat world;
     outputWritten := outputWritten world;
     chunkInformation := chunkInformation world;
     isValidOptimizationProfile := isValidOptimizationProfile world;
     optimizationWritten := written;
     listing := ls;
     listingSettlesFirst := lsFirst;
     timeToInvokeLambdas := timeToInvokeLambdas world;
     finalProgressWritten := finalProgressWritten world;
     errorsInspected := errorsInspected world;
     filesCleaned := filesCleaned world;
     postRenderDataWritten := postRenderDataWritten world;
     chunksCleaned := chunksCleaned world;
     outfileRemoved := outfileRemoved world;
     errorWritten := errorWritten world;
     stackOf := stackOf world;
     getTmpDirStateIfENoSp := getTmpDirStateIfENoSp world |}.

Definition withFramesPerLambda (f : option Z) (p : LaunchParams)
  : LaunchParams :=
  {| serveUrl := serveUrl p;
     composition := composition p;
     framesPerLambda := f;
     bucketName := bucketName p;
     renderId := renderId p;
     codec := codec p;
     imageFormat := imageFormat p;
     maxRetries := maxRetries p;
     privacy := privacy p;
     enableChunkOptimization := enableChunkOptimization p;
     saveBrowserLogs := saveBrowserLogs p |}.

End Sample.

(** ** Observing a trace *)

(** The relative value an event persists, when the event is the start of
    a write of an [EncodingProgress]. *)
Definition persistedRelative (e : Event) : option float :=
  match e with
  | Started (LambdaWriteFile (encodingProgressKey _)
               (JsonEncodingProgress s) _) =>
      Some (PrimFloat.div (toFloat (framesEncoded s)) (toFloat (totalFrames s)))
  | _ => None
  end.

Fixpoint persisted (evs : list Event) : list float :=
  match evs with
  | [] => []
  | e :: evs' =>
      match persistedRelative e with
      | Some q => q :: persisted evs'
      | None => persisted evs'
      end
  end.


(** [guardedBy g b t]: every event of [t] of kind [b] comes after some
    event of kind [g]. *)
Fixpoint guardedBy (g b : Event -> bool) (t : list Event) : bool :=
  match t with
  | [] => true
  | e :: t' => negb (b e) && (g e || guardedBy g b t')
  end.

Definition countb (P : Event -> bool) (t : list Event) : nat :=
  List.length (filter P t).

(** Kinds of events. *)
Definition isInvocation (e : Event) : bool :=
  match e with
  | Started (Invoke _ _) => true
  | _ => false
  end.

Definition isMetadataDurable (p : LaunchParams) (e : Event) : bool :=
  match e with
  | Settled (LambdaWriteFile (renderMetadataKey r) (JsonRenderMetadata _)
               Private) true => String.eqb r (renderId p)
  | _ => false
  end.

Definition isFatalErrorWrite (e : Event) : bool :=
  match e with
  | Started (WriteLambdaError info) => isFatal info
  | _ => false
  end.

Definition isPostRenderWrite (e : Event) : bool :=
  match e with
  | Started (WritePostRenderData _) => true
  | _ => false
  end.

Definition isPostRenderDurable (e : Event) : bool :=
  match e with
  | Settled (WritePostRenderData _) true => true
  | _ => false
  end.

(** The final snapshot is the only write of an [EncodingProgress] that the
    launch awaits. *)
Definition isFinalProgressDurable (p : LaunchParams) (e : Event) : bool :=
  match e with
  | Settled (LambdaWriteFile (encodingProgressKey r) (JsonEncodingProgress s)
               Private) true =>
      String.eqb r (renderId p) && (framesEncoded s =? totalFrames s)
  | _ => false
  end.

(** The removal of the local copy of the merged artifact
    ([fs.promises.rm(outfile)], launch.ts 367). *)
Definition isLocalCopyRemoval (e : Event) : bool :=
  match e with
  | Started (RmOutfile _) => true
  | _ => false
  end.

(** The cleanup of the chunk scratch files is not a call of the launch:
    [concatVideosS3] starts it and hands over its promise,
    [cleanupChunksProm] (launch.ts 241), which the launch awaits at 367.
    A start of that cleanup would be the first kind of event below; the
    await is the second. *)
Definition isChunkCleanupStart (e : Event) : bool :=
  match e with
  | Started CleanupChunks => true
  | _ => false
  end.

Definition isChunkCleanupAwait (e : Event) : bool :=
  match e with
  | Settled CleanupChunks _ => true
  | _ => false
  end.

Definition isStoreWrite (e : Event) : bool :=
  match e with
  | Started (LambdaWriteFile _ _ _) | Started (WriteLambdaError _)
  | Started WriteOptimization | Started (WritePostRenderData _) => true
  | _ => false
  end.

Definition privacyEqb (a b : Privacy) : bool :=
  match a, b with
  | Public, Public | Private, Private => true
  | _, _ => false
  end.

(** The privacy rule of the writes made through [lambdaWriteFile]: the
    output artifact goes under the privacy of the job, everything else is
    private. *)
Definition privacyRule (p : LaunchParams) (e : Event) : bool :=
  match e with
  | Started (LambdaWriteFile key body pr) =>
      match key, body with
      | outName _ _, ReadStream _ => privacyEqb pr (privacy p)
      | renderMetadataKey _, JsonRenderMetadata _ => privacyEqb pr Private
      | encodingProgressKey _, JsonEncodingProgress _ => privacyEqb pr Private
      | _, _ => false
      end
  | _ => true
  end.

(** What the handler makes of the run of the inner launch. *)
Definition handled (w : World) (inner : Run unit) : Run unit :=
  match inner with
  | (t, inr a) => (t, inr a)
  | (t, inl err) =>
      let c := WriteLambdaError (fatalError w err) in
      (t ++ [ConsoleLog; Started c; Settled c (errorWritten w)],
       if errorWritten w then inr tt else inl (Rejected c))
  end.

(** ** Reasoning about runs

    [wp m post]: the trace and the result of [m] satisfy [post]. *)

Definition wp {A} (m : Run A) (post : list Event -> Exn + A -> Prop) : Prop :=
  post (trace m) (result m).

(** The events of the three loops of the launch. *)
Inductive DispatchStart : Event -> Prop :=
| dispatch_start i ps : DispatchStart (Started (Invoke i ps)).

Inductive DispatchJoin : Event -> Prop :=
| dispatch_join i ps ok : DispatchJoin (Settled (Invoke i ps) ok).

Inductive ProgressEvent (w : World) (p : LaunchParams) : Event -> Prop :=
| progress_write e : ProgressEvent w p (Started (progressWrite p e))
| progress_rejected e : ProgressEvent w p (Settled (progressWrite p e) false)
| progress_error c :
    ProgressEvent w p (Started (WriteLambdaError (progressWriteError w c))).


(** ** More kinds of events *)

Definition isOptimizationWrite (e : Event) : bool :=
  match e with
  | Started WriteOptimization => true
  | _ => false
  end.

(** The steps of the launch that come after the listing of the render
    folder. *)
Definition isFinalisation (e : Event) : bool :=
  match e with
  | Started InspectErrors | Started CleanupFiles
  | Started (WritePostRenderData _) | Started (RmOutfile _) => true
  | _ => false
  end.

Definition isOutputUpload (e : Event) : bool :=
  match e with
  | Started (LambdaWriteFile (outName _ _) _ _) => true
  | _ => false
  end.

Definition isOutputDurable (e : Event) : bool :=
  match e with
  | Settled (LambdaWriteFile (outName _ _) _ _) true => true
  | _ => false
  end.

Definition isConcatDone (e : Event) : bool :=
  match e with
  | Settled ConcatVideosS3 true => true
  | _ => false
  end.

Definition isSubmissionSettled (e : Event) : bool :=
  match e with
  | Settled (Invoke _ _) _ => true
  | _ => false
  end.

(** [noneAfter a b t]: no event of kind [a] comes after an event of kind
    [b] in [t]. *)
Fixpoint noneAfter (a b : Event -> bool) (t : list Event) : bool :=
  match t with
  | [] => true
  | e :: t' => (negb (b e) || negb (existsb a t')) && noneAfter a b t'
  end.

(** What a trace persisted. *)
Definition metadataOf (e : Event) : list RenderMetadata :=
  match e with
  | Started (LambdaWriteFile (renderMetadataKey _) (JsonRenderMetadata m) _) =>
      [m]
  | _ => []
  end.

Definition awaitedProgressOf (e : Event) : list EncodingProgress :=
  match e with
  | Settled (LambdaWriteFile (encodingProgressKey _)
               (JsonEncodingProgress s) _) true => [s]
  | _ => []
  end.

Definition postRenderDataOf (e : Event) : list PostRenderData :=
  match e with
  | Started (WritePostRenderData d) => [d]
  | _ => []
  end.

(** The fire invocation an event submits: the index of the group and the
    payloads handed to the secondary dispatcher. *)
Definition invocationOf (e : Event) : list (nat * list RendererPayload) :=
  match e with
  | Started (Invoke i ps) => [(i, ps)]
  | _ => []
  end.

Definition isConcatStart (e : Event) : bool :=
  match e with
  | Started ConcatVideosS3 => true
  | _ => false
  end.

(** What the RenderMetadata written by a launch must say
    (launch.ts 131-155), given the world and the request. *)
Definition metadataRule (w : World) (p : LaunchParams) (e : Event) : bool :=
  match e with
  | Started (LambdaWriteFile (renderMetadataKey _) (JsonRenderMetadata m) _) =>
      Nat.eqb (estimatedTotalLambdaInvokations m)
              (totalChunks m + roundSqrt (totalChunks m)) &&
      Nat.eqb (estimatedRenderLambdaInvokations m) (totalChunks m) &&
      (startedDate m =? nowAtLaunch w) &&
      String.eqb (m_renderId m) (renderId p) &&
      String.eqb (m_codec m) (codec p) &&
      String.eqb (compositionId m) (compId (videoConfig m))
  | _ => true
  end.

(** The order of the chunks that [sortedChunks] realises: by start of the
    frame range, then by position in the plan. *)
Definition lexlt (x y : nat * FrameRange) : Prop :=
  fst (snd x) < fst (snd y) \/
  (fst (snd x) = fst (snd y) /\ (fst x < fst y)%nat).

Module Sample2.

(** A plan that is not in frame order. *)
Definition shuffled : list FrameRange := [(40, 59); (0, 19); (20, 39)].

Definition blank : RendererPayload :=
  {| r_frameRange := (0, 0); r_serveUrl := ""; r_chunk := 0;
     r_composition := ""; r_fps := 0; r_height := 0; r_width := 0;
     r_durationInFrames := 0; r_bucketName := ""; r_retriesLeft := 0;
     r_renderId := ""; r_imageFormat := ""; r_codec := "";
     r_privacy := Private; r_saveBrowserLogs := false; r_attempt := 0 |}.

Definition payload (i : nat) : RendererPayload :=
  nth i (lambdaPayloads Sample.params Sample.comp shuffled) blank.

End Sample2.

Definition isNonFatalRecord (e : Event) : bool :=
  match e with
  | Started (WriteLambdaError i) =>
      negb (isFatal i) && negb (willRetry i) &&
      (attempt i =? 1) && (totalAttempts i =? 1)
  | _ => true
  end.

Definition isRejection (e : Event) : bool :=
  match e with
  | Settled _ false => true
  | _ => false
  end.

Definition isErrorRecord (e : Event) : bool :=
  match e with
  | Started (WriteLambdaError _) => true
  | _ => false
  end.

(** * The still render flow of the CLI

    [packages/cli/src/render-flows/still.ts], [renderStillFlow]: the same
    kind of embedding, with events of its own. *)

Module Still.

(** [RenderStep] of [../step]. *)
Inductive RenderStep := bundling | rendering.

(** [DownloadProgress] of [../progress-bar]. *)
Record DownloadProgress := {
  id : Q;
  name : string;
  progress : Q;
  downloaded : Z;
  totalBytes : option Z
}.

(** The argument of [makeRenderingAndStitchingProgress] ([stitching] is
    always null in this flow). *)
Record RenderingProgress := {
  frames : Z;
  concurrency : Z;
  doneIn : option Z;
  steps : list RenderStep;
  totalFrames : Z
}.

Record ProgressInput := {
  rendering_ : RenderingProgress;
  downloads : list DownloadProgress
}.

Inductive Call :=
| GetCliOptions
| OpenBrowser
| BundleOnCliOrTakeServeUrl (steps : list RenderStep)
| GetCompositions
| GetCompositionWithDimensionOverride
| DetermineFinalImageFormat
| GetOutputLocation
| GetAndValidateAbsoluteOutputFile
| MkdirSync
| RenderStill
| CloseBrowser
| CleanDownloadMap
| CleanupBundle.

Inductive LogLine :=
| VerboseBrowserExecutable
| InfoEntryPoint
| InfoBlank
| InfoReady
| InfoTotalRenderTime (seconds : Z) (unit : string)
| InfoOutputLabel
| InfoOutputPath
| VerboseCleanedUp.

(** [Update i]: one call of [renderProgress.update] on the rendering of
    [i]. *)
Inductive Event :=
| Started (c : Call)
| Settled (c : Call) (ok : bool)
| Update (i : ProgressInput)
| Log (l : LogLine).

Inductive Exn := Rejected (c : Call).

Definition Run (A : Type) : Type := (list Event * (Exn + A))%type.

Definition trace {A} (m : Run A) : list Event := fst m.
Definition result {A} (m : Run A) : Exn + A := snd m.

Definition ret {A} (a : A) : Run A := ([], inr a).
Definition emit (e : Event) : Run unit := ([e], inr tt).
Definition emits (evs : list Event) : Run unit := (evs, inr tt).

Definition bind {A B} (m : Run A) (k : A -> Run B) : Run B :=
  match m with
  | (t, inl e) => (t, inl e)
  | (t, inr a) => let (t', r) := k a in (t ++ t', r)
  end.

Declare Scope still_scope.
Delimit Scope still_scope with still.
Notation "m ';;' k" := (bind m (fun _ => k))
  (at level 100, k at level 200, right associativity) : still_scope.
Local Open Scope still_scope.

Definition start (c : Call) : Run unit := emit (Started c).

Definition settle (c : Call) (ok : bool) : Run unit :=
  if ok then ([Settled c true], inr tt)
  else ([Settled c false], inl (Rejected c)).

(** A call that is awaited in place, or a synchronous call that may
    throw. *)
Definition call (c : Call) (ok : bool) : Run unit := start c ;; settle c ok.

(** What [renderStill] does with [onDownload]: it announces a download,
    or reports the progress of the [k]-th download it announced, through
    the callback that [onDownload] returned for it. *)
Inductive DownloadEvent :=
| Begin (src : string) (random : Q)
| Percent (k : nat) (percent : Q).

Record World := {
  isServeUrl : bool;
  answers : Call -> bool;
  (* Date.now() at lines 48, 149, 161 (after the render) and 223 *)
  startTime : Z;
  renderStart : Z;
  renderDone : Z;
  endTime : Z;
  script : list DownloadEvent
}.

(** [[isServeUrl(fullPath) ? null : 'bundling', 'rendering'].filter(truthy)] *)
Definition stepsOf (w : World) : list RenderStep :=
  (if isServeUrl w then [] else [bundling]) ++ [rendering].

(** [updateProgress] (still.ts 155-169), for the current values of
    [frames] and [downloads]; the clock is read only when the frame is
    done. *)
Definition updateProgress (w : World) (frames_ : Z)
    (ds : list DownloadProgress) : Event :=
  Update
    {| rendering_ :=
         {| frames := frames_;
            concurrency := 1;
            doneIn := if frames_ =? 1 then Some (renderDone w - renderStart w)
                      else None;
            steps := stepsOf w;
            totalFrames := 1 |};
       downloads := ds |}.

(** [download.progress = percent] on the [k]-th object of the array. *)
Fixpoint setProgress (k : nat) (percent : Q) (ds : list DownloadProgress)
  : list DownloadProgress :=
  match ds, k with
  | [], _ => []
  | d :: ds', O =>
      {| id := id d; name := name d; progress := percent;
         downloaded := downloaded d; totalBytes := totalBytes d |} :: ds'
  | d :: ds', S k' => d :: setProgress k' percent ds'
  end.

(** [onDownload] (still.ts 173-189) and the callback it returns.  A
    callback exists only once its download was announced; a report for a
    download that was not announced changes nothing. *)
Definition onDownloadEvent (w : World) (ds : list DownloadProgress)
    (ev : DownloadEvent) : list DownloadProgress * list Event :=
  match ev with
  | Begin src random =>
      let ds' := ds ++ [{| id := random; name := src; progress := 0;
                           downloaded := 0; totalBytes := None |}] in
      (ds', [updateProgress w 0 ds'])
  | Percent k percent =>
      if (k <? List.length ds)%nat then
        let ds' := setProgress k percent ds in
        (ds', [updateProgress w 0 ds'])
      else (ds, [])
  end.

Fixpoint runDownloads (w : World) (ds : list DownloadProgress)
    (evs : list DownloadEvent) : list DownloadProgress * list Event :=
  match evs with
  | [] => (ds, [])
  | ev :: evs' =>
      let (ds1, t1) := onDownloadEvent w ds ev in
      let (ds2, t2) := runDownloads w ds1 evs' in
      (ds2, t1 ++ t2)
  end.

(** [Math.round((end - start) / 1000)] on integer milliseconds. *)
Definition roundSeconds (ms : Z) : Z := (ms + 500) / 1000.

Definition renderTimeLine (w : World) : LogLine :=
  let seconds := roundSeconds (endTime w - startTime w) in
  InfoTotalRenderTime seconds
    (if seconds =? 1 then "second"%string else "seconds"%string).

Definition renderStillFlow (w : World) : Run unit :=
  call GetCliOptions (answers w GetCliOptions) ;;
  emit (Log VerboseBrowserExecutable) ;;
  start OpenBrowser ;;
  let steps_ := stepsOf w in
  call (BundleOnCliOrTakeServeUrl steps_)
       (answers w (BundleOnCliOrTakeServeUrl steps_)) ;;
  settle OpenBrowser (answers w OpenBrowser) ;;
  call GetCompositions (answers w GetCompositions) ;;
  call GetCompositionWithDimensionOverride
       (answers w GetCompositionWithDimensionOverride) ;;
  call DetermineFinalImageFormat (answers w DetermineFinalImageFormat) ;;
  call GetOutputLocation (answers w GetOutputLocation) ;;
  call GetAndValidateAbsoluteOutputFile
       (answers w GetAndValidateAbsoluteOutputFile) ;;
  call MkdirSync (answers w MkdirSync) ;;
  emit (Log InfoEntryPoint) ;;
  emit (updateProgress w 0 []) ;;
  start RenderStill ;;
  let (ds, updates) := runDownloads w [] (script w) in
  emits updates ;;
  settle RenderStill (answers w RenderStill) ;;
  emit (updateProgress w 1 ds) ;;
  emit (Log InfoBlank) ;;
  start CloseBrowser ;;
  emit (Log InfoReady) ;;
  emit (Log (renderTimeLine w)) ;;
  emit (Log InfoOutputLabel) ;;
  emit (Log InfoOutputPath) ;;
  settle CloseBrowser (answers w CloseBrowser) ;;
  call CleanDownloadMap (answers w CleanDownloadMap) ;;
  call CleanupBundle (answers w CleanupBundle) ;;
  emit (Log VerboseCleanedUp).

(** The last progress reported for the [k]-th download in a script, 0 if
    none. *)
Fixpoint lastPercent (k : nat) (evs : list DownloadEvent) (announced : nat)
    (current : Q) : Q :=
  match evs with
  | [] => current
  | Begin _ _ :: evs' => lastPercent k evs' (S announced) current
  | Percent j q :: evs' =>
      if (Nat.eqb j k && (j <? announced)%nat)%bool
      then lastPercent k evs' announced q
      else lastPercent k evs' announced current
  end.

(** The sources announced by a script, in order. *)
Fixpoint announcedBy (evs : list DownloadEvent) : list (string * Q) :=
  match evs with
  | [] => []
  | Begin src random :: evs' => (src, random) :: announcedBy evs'
  | Percent _ _ :: evs' => announcedBy evs'
  end.

Definition isUpdate (e : Event) : bool :=
  match e with Update _ => true | _ => false end.

Definition isRenderSettled (e : Event) : bool :=
  match e with Settled RenderStill _ => true | _ => false end.

Definition isTeardown (e : Event) : bool :=
  match e with
  | Started CloseBrowser | Started CleanDownloadMap | Started CleanupBundle =>
      true
  | _ => false
  end.

Definition isRenderDone (e : Event) : bool :=
  match e with Settled RenderStill true => true | _ => false end.


(** [guarded g b t]: every event of kind [b] in [t] comes after one of
    kind [g]. *)
Fixpoint guarded (g b : Event -> bool) (t : list Event) : bool :=
  match t with
  | [] => true
  | e :: t' => negb (b e) && (g e || guarded g b t')
  end.

(** What an update must show, before ([done = false]) and after the
    render has settled. *)
Definition updateRule (w : World) (done : bool) (i : ProgressInput) : bool :=
  (concurrency (rendering_ i) =? 1) && (totalFrames (rendering_ i) =? 1) &&
  match steps (rendering_ i), isServeUrl w with
  | [rendering], true | [bundling; rendering], false => true
  | _, _ => false
  end &&
  (if done then
     (frames (rendering_ i) =? 1) &&
     match doneIn (rendering_ i) with
     | Some d => d =? renderDone w - renderStart w
     | None => false
     end
   else
     (frames (rendering_ i) =? 0) &&
     match doneIn (rendering_ i) with
     | Some _ => false
     | None => true
     end).

Fixpoint updatesOk (w : World) (done : bool) (t : list Event) : bool :=
  match t with
  | [] => true
  | Update i :: t' => updateRule w done i && updatesOk w done t'
  | e :: t' => updatesOk w (done || isRenderSettled e) t'
  end.

Definition described (d : DownloadProgress) : string * Q :=
  (name d, id d).

Definition progressAt (k : nat) (ds : list DownloadProgress) : Q :=
  match nth_error ds k with
  | Some d => progress d
  | None => 0
  end.

(** The input of the [n]-th event of a trace, when it is an update. *)
Definition inputAt (n : nat) (t : list Event) : ProgressInput :=
  match nth n t (Log InfoBlank) with
  | Update i => i
  | _ => {| rendering_ := {| frames := 0; concurrency := 0; doneIn := None;
                             steps := []; totalFrames := 0 |};
            downloads := [] |}
  end.

(** The updates made while the still is rendered show no frame done. *)
Definition OnlyUpdates (w : World) (t : list Event) : Prop :=
  Forall (fun e => exists ds', e = updateProgress w 0 ds') t.

Definition sampleWorld (bundleOk renderOk : bool) : World :=
  {| isServeUrl := false;
     answers := fun c =>
       match c with
       | BundleOnCliOrTakeServeUrl _ => bundleOk
       | RenderStill => renderOk
       | _ => true
       end;
     startTime := 1000;
     renderStart := 3000;
     renderDone := 4200;
     endTime := 4499;
     script := [Begin "a.png" (1 # 3); Begin "b.png" (2 # 3);
                Percent 0 (1 # 2); Percent 1 (1 # 4); Percent 0 1] |}.

End Still.

(** * The page of the static preview

    [packages/bundler/src/static-preview.ts], [indexHtml]. *)

Module StaticPreview.

Local Open Scope string_scope.

Definition nl : string := String (Ascii.ascii_of_nat 10) EmptyString.
Definition tab : string := String (Ascii.ascii_of_nat 9) EmptyString.
Definition quote : string := String (Ascii.ascii_of_nat 34) EmptyString.

(** The three pieces of the template literal, around [${staticHash}] and
    [${baseDir}]; the first begins and the last ends with the line break
    that follows and precedes the backticks. *)
Definition head : string :=
  nl ++ "<!DOCTYPE html>" ++ nl ++ "<html lang=" ++ quote ++ "en" ++ quote ++
  ">" ++ nl ++ tab ++ "<head>" ++ nl ++ tab ++ tab ++ "<meta charset=" ++
  quote ++ "UTF-8" ++ quote ++ " />" ++ nl ++ tab ++ tab ++ "<meta name=" ++
  quote ++ "viewport" ++ quote ++ " content=" ++ quote ++
  "width=device-width, initial-scale=1.0" ++ quote ++ " />" ++ nl ++ tab ++
  tab ++ "<link rel=" ++ quote ++ "preconnect" ++ quote ++ " href=" ++
  quote ++ "https://fonts.gstatic.com" ++ quote ++ " />" ++ nl ++ tab ++
  tab ++ "<link rel=" ++ quote ++ "icon" ++ quote ++ " type=" ++ quote ++
  "image/png" ++ quote ++ " href=" ++ quote ++ "/favicon.png" ++ quote ++
  " />" ++ nl ++ tab ++ tab ++ "<title>Remotion Preview</title>" ++ nl ++
  tab ++ "</head>" ++ nl ++ tab ++ "<body>" ++ nl ++
  "    <script>window.remotion_staticBase = " ++ quote.

Definition middle : string :=
  quote ++ ";</script>" ++ nl ++ tab ++ tab ++ "<div id=" ++ quote ++
  "video-container" ++ quote ++ "></div>" ++ nl ++ tab ++ tab ++
  "<div id=" ++ quote ++ "explainer-container" ++ quote ++ "></div>" ++ nl ++
  tab ++ tab ++ "<div id=" ++ quote ++ "menuportal-0" ++ quote ++
  "></div>" ++ nl ++ tab ++ tab ++ "<div id=" ++ quote ++ "menuportal-1" ++
  quote ++ "></div>" ++ nl ++ tab ++ tab ++ "<div id=" ++ quote ++
  "menuportal-2" ++ quote ++ "></div>" ++ nl ++ tab ++ tab ++ "<div id=" ++
  quote ++ "menuportal-3" ++ quote ++ "></div>" ++ nl ++ tab ++ tab ++
  "<div id=" ++ quote ++ "menuportal-4" ++ quote ++ "></div>" ++ nl ++ tab ++
  tab ++ "<div id=" ++ quote ++ "menuportal-5" ++ quote ++ "></div>" ++ nl ++
  tab ++ tab ++ "<script src=" ++ quote.

Definition tail : string :=
  "bundle.js" ++ quote ++ "></script>" ++ nl ++ tab ++ "</body>" ++ nl ++
  "</html>" ++ nl.

Definition template (staticHash baseDir : string) : string :=
  head ++ staticHash ++ middle ++ baseDir ++ tail.

(** [String.prototype.trim] on a string of bytes: the white space of
    ECMAScript that is a single byte (TAB, LF, VT, FF, CR, SP). *)
Definition isWhiteSpace (c : Ascii.ascii) : bool :=
  let n := Ascii.nat_of_ascii c in
  ((9 <=? n) && (n <=? 13) || (n =? 32))%nat.

Fixpoint trimStart (s : string) : string :=
  match s with
  | EmptyString => EmptyString
  | String c s' => if isWhiteSpace c then trimStart s' else s
  end.

Fixpoint trimEnd (s : string) : string :=
  match s with
  | EmptyString => EmptyString
  | String c s' =>
      match trimEnd s' with
      | EmptyString => if isWhiteSpace c then EmptyString
                       else String c EmptyString
      | t => String c t
      end
  end.

Definition trim (s : string) : string := trimEnd (trimStart s).

Definition indexHtml (staticHash baseDir : string) : string :=
  trim (template staticHash baseDir).

End StaticPreview.
(** * Properties *)

(** ** Double-precision arithmetic

    Facts about binary64 numbers, from the specification of the primitive
    floats ([FloatAxioms], [SpecFloat]). *)

Section Doubles.

Unset Implicit Arguments.

Lemma digits2_bounds (m : positive) :
  2 ^ (Zpos (digits2_pos m) - 1) <= Zpos m < 2 ^ Zpos (digits2_pos m).
Proof.
  induction m as [m IH | m IH |]; simpl digits2_pos.
  - rewrite Pos2Z.inj_succ, (Pos2Z.inj_xI m).
    set (d := Zpos (digits2_pos m)) in *.
    assert (Hpos : 0 < d) by (unfold d; lia). clearbody d.
    assert (Hd : 2 ^ d = 2 * 2 ^ (d - 1)).
    { rewrite <- Z.pow_succ_r by lia. f_equal. lia. }
    replace (Z.succ d - 1) with d by lia.
    rewrite Z.pow_succ_r by lia.
    generalize dependent (2 ^ d). generalize dependent (2 ^ (d - 1)).
    intros. lia.
  - rewrite Pos2Z.inj_succ, (Pos2Z.inj_xO m).
    set (d := Zpos (digits2_pos m)) in *.
    assert (Hpos : 0 < d) by (unfold d; lia). clearbody d.
    assert (Hd : 2 ^ d = 2 * 2 ^ (d - 1)).
    { rewrite <- Z.pow_succ_r by lia. f_equal. lia. }
    replace (Z.succ d - 1) with d by lia.
    rewrite Z.pow_succ_r by lia.
    generalize dependent (2 ^ d). generalize dependent (2 ^ (d - 1)).
    intros. lia.
  - simpl. lia.
Qed.

Lemma iter_xO (m d : positive) : Zpos (Pos.iter xO m d) = Zpos m * 2 ^ Zpos d.
Proof.
  revert m. induction d using Pos.peano_ind; intros m.
  - simpl. lia.
  - rewrite Pos.iter_succ, Pos2Z.inj_succ, Z.pow_succ_r by lia.
    rewrite Pos2Z.inj_xO, IHd. lia.
Qed.


(** shr keeps a mantissa non-negative *)
Lemma shr_1_nonneg mrs : 0 <= shr_m mrs -> 0 <= shr_m (shr_1 mrs).
Proof.
  destruct mrs as [m r s]. simpl. intros H.
  destruct m as [|[p|p|]|[p|p|]]; simpl; lia.
Qed.

Lemma iter_pos_nonneg (p : positive) :
  forall mrs, 0 <= shr_m mrs -> 0 <= shr_m (SpecFloat.iter_pos shr_1 p mrs).
Proof.
  induction p as [p IH | p IH |]; intros mrs H; simpl.
  - apply IH, IH, shr_1_nonneg, H.
  - apply IH, IH, H.
  - apply shr_1_nonneg, H.
Qed.

Lemma shr_nonneg mrs e n : 0 <= shr_m mrs -> 0 <= shr_m (fst (shr mrs e n)).
Proof.
  intros H. unfold shr. destruct n; simpl; auto using iter_pos_nonneg.
Qed.

Lemma shr_fexp_nonneg m e l :
  0 <= m -> 0 <= shr_m (fst (shr_fexp prec emax m e l)).
Proof.
  intros H. unfold shr_fexp. apply shr_nonneg.
  destruct l as [|[]]; simpl; exact H.
Qed.

Lemma round_nearest_even_nonneg m l : 0 <= m -> 0 <= round_nearest_even m l.
Proof.
  intros H. destruct l as [|[]]; simpl; try lia.
  destruct (Z.even m); lia.
Qed.

Lemma binary_round_aux_signed s m e l :
  0 <= m -> signed s (binary_round_aux prec emax s m e l).
Proof.
  intros H. unfold binary_round_aux.
  pose proof (shr_fexp_nonneg m e l H) as H1.
  destruct (shr_fexp prec emax m e l) as [mrs' e'].
  pose proof (shr_fexp_nonneg
                (round_nearest_even (shr_m mrs') (loc_of_shr_record mrs'))
                e' loc_Exact
                (round_nearest_even_nonneg _ _ H1)) as H2.
  destruct (shr_fexp prec emax _ e' loc_Exact) as [mrs'' e''].
  simpl in H2. destruct (shr_m mrs''); simpl; try reflexivity; [|lia].
  destruct (e'' <=? _); reflexivity.
Qed.

Lemma binary_round_signed s m e : signed s (binary_round prec emax s m e).
Proof.
  unfold binary_round. destruct (shl_align _ _ _) as [mz ez].
  apply binary_round_aux_signed. lia.
Qed.


(** A canonical mantissa has at most 53 bits, and exactly 53 above the least
    exponent. *)
Lemma canonical_bounds m e :
  canonical_mantissa prec emax m e = true ->
  -1074 <= e /\ Zpos m < 2 ^ 53 /\ (-1074 < e -> 2 ^ 52 <= Zpos m).
Proof.
  unfold canonical_mantissa, fexp, SpecFloat.emin, prec, emax. intros H.
  apply Z.eqb_eq in H.
  pose proof (digits2_bounds m) as [Hlo Hhi].
  set (d := Zpos (digits2_pos m)) in *.
  assert (Hd : 0 < d) by (unfold d; lia).
  assert (Hle : d <= 53) by lia.
  split; [lia|]. split.
  - apply Z.lt_le_trans with (1 := Hhi). apply Z.pow_le_mono_r; lia.
  - intros He. assert (d = 53) as -> by lia. exact Hlo.
Qed.

Lemma shl_align_fst m e e' :
  e' <= e -> Zpos (fst (shl_align m e e')) = Zpos m * 2 ^ (e - e').
Proof.
  intros H. unfold shl_align.
  destruct (e' - e) as [|d|d] eqn:E; simpl fst.
  - replace (e - e') with 0 by lia. lia.
  - lia.
  - rewrite iter_xO. f_equal. f_equal. lia.
Qed.

(** The order of two valid positive numbers is the order of their aligned
    mantissas. *)
Lemma aligned_lt m1 e1 m2 e2 :
  bounded prec emax m1 e1 = true -> bounded prec emax m2 e2 = true ->
  match Z.compare e1 e2 with
  | Lt => Lt | Gt => Gt | Eq => Pos.compare_cont Eq m1 m2
  end = Lt ->
  Zpos (fst (shl_align m1 e1 (Z.min e1 e2)))
  < Zpos (fst (shl_align m2 e2 (Z.min e1 e2))).
Proof.
  unfold bounded. intros B1 B2 H.
  apply andb_true_iff in B1 as [C1 _]. apply andb_true_iff in B2 as [C2 _].
  apply canonical_bounds in C1 as (L1 & U1 & N1).
  apply canonical_bounds in C2 as (L2 & U2 & N2).
  rewrite !shl_align_fst by lia.
  destruct (Z.compare_spec e1 e2) as [E | E | E]; try discriminate.
  - subst e2. rewrite Z.min_id, Z.sub_diag. change (2 ^ 0) with 1.
    change (Pos.compare_cont Eq m1 m2) with (Pos.compare m1 m2) in H.
    rewrite Pos.compare_lt_iff in H. lia.
  - rewrite Z.min_l by lia. rewrite Z.sub_diag.
    assert (H2 : 2 ^ 1 <= 2 ^ (e2 - e1)) by (apply Z.pow_le_mono_r; lia).
    specialize (N2 ltac:(lia)).
    change (2 ^ 1) with 2 in H2. change (2 ^ 0) with 1.
    change (2 ^ 53) with (2 * 2 ^ 52) in U1.
    nia.
Qed.

Lemma binary_normalize_negative m e :
  m < 0 -> signed true (binary_normalize prec emax m e false).
Proof.
  intros H. destruct m; try lia. apply binary_round_signed.
Qed.

(** Subtracting a larger valid number gives a negative result. *)
Lemma SFsub_negative x y :
  valid_binary x = true -> valid_binary y = true ->
  SFcompare x y = Some Lt -> signed true (SFsub prec emax x y).
Proof.
  intros Vx Vy H.
  destruct x as [sx | sx | | sx mx ex], y as [sy | sy | | sy my ey];
    simpl in H; try discriminate;
    try solve [repeat match goal with s : bool |- _ => destruct s end;
               simpl in *; try discriminate; reflexivity].
  - simpl in Vx, Vy. unfold SFsub.
    apply binary_normalize_negative.
    destruct sx, sy; simpl cond_Zopp; try discriminate.
    + injection H as H.
      assert (H' : match Z.compare ey ex with
                   | Lt => Lt | Gt => Gt | Eq => Pos.compare_cont Eq my mx
                   end = Lt).
      { rewrite Z.compare_antisym.
        destruct (Z.compare ex ey); simpl in *; try congruence.
        change (Pos.compare_cont Eq my mx) with (Pos.compare my mx).
        rewrite Pos.compare_antisym.
        change (Pos.compare_cont Eq mx my) with (Pos.compare mx my) in H.
        destruct (Pos.compare mx my); simpl in *; congruence. }
      pose proof (aligned_lt _ _ _ _ Vy Vx H') as A.
      rewrite (Z.min_comm ey ex) in A. lia.
    + lia.
    + injection H as H.
      pose proof (aligned_lt _ _ _ _ Vx Vy H) as A. lia.
Qed.

Lemma SFcompare_antisym x y c :
  SFcompare x y = Some c -> SFcompare y x = Some (CompOpp c).
Proof.
  destruct x as [sx | sx | | sx mx ex], y as [sy | sy | | sy my ey];
    simpl; try discriminate; intros H; injection H as <-;
    repeat match goal with s : bool |- _ => destruct s end;
    try reflexivity;
    rewrite (Z.compare_antisym ex ey);
    destruct (Z.compare ex ey); simpl; try reflexivity;
    change (Pos.compare_cont Eq my mx) with (Pos.compare my mx);
    rewrite Pos.compare_antisym, ?CompOpp_involutive; reflexivity.
Qed.

Lemma SFcompare_numbers x y :
  x <> S754_nan -> y <> S754_nan -> exists c, SFcompare x y = Some c.
Proof.
  destruct x, y; simpl; intros; try congruence; eauto.
Qed.

Lemma signed_below_positive r m e :
  signed true r -> SFltb r (S754_finite false m e) = true.
Proof.
  destruct r as [s | s | | s m' e']; simpl; intros H; try contradiction;
    subst; reflexivity.
Qed.

(** If the rounded difference [x - y] is not below a positive number, then
    [y <= x]. *)
Lemma SFsub_not_below x y m e :
  valid_binary x = true -> valid_binary y = true ->
  x <> S754_nan -> y <> S754_nan ->
  SFltb (SFsub prec emax x y) (S754_finite false m e) = false ->
  SFleb y x = true.
Proof.
  intros Vx Vy Nx Ny H.
  destruct (SFcompare_numbers x y Nx Ny) as [c Hc].
  destruct c.
  - apply SFcompare_antisym in Hc. unfold SFleb. rewrite Hc. reflexivity.
  - rewrite (signed_below_positive _ m e (SFsub_negative x y Vx Vy Hc)) in H.
    discriminate.
  - apply SFcompare_antisym in Hc. unfold SFleb. rewrite Hc. reflexivity.
Qed.


Lemma number_not_nan (x : float) : is_nan x = false -> Prim2SF x <> S754_nan.
Proof.
  intros H. unfold Prim2SF. rewrite H.
  destruct (is_zero x); [discriminate|].
  destruct (is_infinity x); [discriminate|].
  destruct (Z.frexp x) as [r ex].
  destruct (shr_fexp _ _ _ _ _) as [sh e'].
  destruct (shr_m sh); discriminate.
Qed.

(** In doubles: when [x - y] is not below [0.1], [y <= x]. *)
Lemma sub_not_below_tenth (x y : float) :
  is_nan x = false -> is_nan y = false ->
  PrimFloat.ltb (PrimFloat.sub x y) tenth = false -> PrimFloat.leb y x = true.
Proof.
  intros Nx Ny H.
  rewrite FloatAxioms.ltb_spec, FloatAxioms.sub_spec in H. rewrite FloatAxioms.leb_spec.
  change (Prim2SF tenth) with (S754_finite false 7205759403792794 (-56)) in H.
  apply SFsub_not_below with (5 := H);
    auto using FloatAxioms.Prim2SF_valid, number_not_nan.
Qed.

Lemma digits2_iter_xO (m k : positive) :
  digits2_pos (Pos.iter xO m k) = (digits2_pos m + k)%positive.
Proof.
  induction k using Pos.peano_ind.
  - simpl. lia.
  - rewrite Pos.iter_succ. simpl. rewrite IHk. lia.
Qed.

Lemma digits2_small (p : positive) :
  Zpos p < 2 ^ 53 -> Zpos (digits2_pos p) <= 53.
Proof.
  intros H. pose proof (digits2_bounds p) as [Hlo _].
  destruct (Z_le_gt_dec (Zpos (digits2_pos p)) 53) as [|Hgt]; [assumption|].
  assert (2 ^ 53 <= 2 ^ (Zpos (digits2_pos p) - 1))
    by (apply Z.pow_le_mono_r; lia).
  lia.
Qed.

(** An integer of at most 53 bits is converted exactly, to a finite number. *)
Lemma binary_round_small (p : positive) :
  Zpos p < 2 ^ 53 ->
  exists m e, binary_round prec emax false p 0 = S754_finite false m e.
Proof.
  intros H. pose proof (digits2_small p H) as Hd.
  unfold binary_round.
  assert (A : exists mz ez,
    shl_align p 0 (fexp prec emax (Zpos (digits2_pos p) + 0)) = (mz, ez)
    /\ Zpos (digits2_pos mz) = 53 /\ ez = Zpos (digits2_pos p) - 53).
  { unfold shl_align, fexp, SpecFloat.emin, prec, emax.
    rewrite Z.add_0_r, Z.sub_0_r.
    rewrite Z.max_l by lia.
    destruct (Zpos (digits2_pos p) - 53) as [|k|k] eqn:E.
    - exists p, 0. repeat split; lia.
    - lia.
    - eexists _, _. split; [reflexivity|]. split; [|reflexivity].
      rewrite digits2_iter_xO. lia. }
  destruct A as (mz & ez & -> & Hmz & Hez).
  unfold binary_round_aux.
  assert (S : forall l, l = loc_Exact ->
    shr_fexp prec emax (Zpos mz) ez l
    = (shr_record_of_loc (Zpos mz) loc_Exact, ez)).
  { intros l ->. unfold shr_fexp, fexp, SpecFloat.emin, prec, emax.
    simpl Zdigits2. rewrite Hmz.
    replace (Z.max (53 + ez - 53) (3 - 1024 - 53) - ez) with 0 by lia.
    reflexivity. }
  rewrite (S _ eq_refl). simpl round_nearest_even. rewrite (S _ eq_refl).
  simpl shr_m.
  destruct (ez <=? emax - prec) eqn:E; [eauto|].
  apply Z.leb_gt in E. unfold emax, prec in E. lia.
Qed.

Lemma SFcompare_refl x : x <> S754_nan -> SFcompare x x = Some Eq.
Proof.
  destruct x as [s | s | | s m e]; simpl; intros H; try congruence.
  - destruct s; reflexivity.
  - rewrite Z.compare_refl.
    change (Pos.compare_cont Eq m m) with (Pos.compare m m).
    rewrite Pos.compare_refl. destruct s; reflexivity.
Qed.

Lemma number_is_not_nan (x : float) : Prim2SF x <> S754_nan -> is_nan x = false.
Proof.
  intros H. unfold is_nan. rewrite FloatAxioms.eqb_spec. unfold SFeqb.
  rewrite SFcompare_refl by assumption. reflexivity.
Qed.

Lemma toFloat_signed (z : Z) : Prim2SF (toFloat z) <> S754_nan.
Proof.
  unfold toFloat. destruct (z <? 0).
  - rewrite FloatAxioms.opp_spec, FloatAxioms.of_uint63_spec.
    destruct (Uint63.to_Z _) as [|p|p]; simpl; try discriminate;
      match goal with |- context [binary_round ?a ?b ?c ?d ?e] =>
        pose proof (binary_round_signed c d e) as S;
        destruct (binary_round a b c d e) end;
      simpl in *; try discriminate; contradiction.
  - rewrite FloatAxioms.of_uint63_spec.
    destruct (Uint63.to_Z _) as [|p|p]; simpl; try discriminate;
      match goal with |- context [binary_round ?a ?b ?c ?d ?e] =>
        pose proof (binary_round_signed c d e) as S;
        destruct (binary_round a b c d e) end;
      simpl in *; try discriminate; contradiction.
Qed.

Lemma toFloat_finite (z : Z) :
  0 < z < 2 ^ 53 -> exists m e, Prim2SF (toFloat z) = S754_finite false m e.
Proof.
  intros H. unfold toFloat.
  destruct (Z.ltb_spec z 0) as [|_]; [lia|].
  rewrite FloatAxioms.of_uint63_spec, Uint63.of_Z_spec.
  rewrite Z.mod_small.
  2:{ split; [lia|]. apply Z.lt_trans with (2 ^ 53); [lia|]. reflexivity. }
  destruct z as [|p|p]; try lia.
  apply binary_round_small. lia.
Qed.

(** A quotient by a positive integer of at most 53 bits is a number. *)
Lemma quotient_number (a b : Z) :
  0 < b < 2 ^ 53 -> is_nan (PrimFloat.div (toFloat a) (toFloat b)) = false.
Proof.
  intros Hb. apply number_is_not_nan. rewrite FloatAxioms.div_spec.
  destruct (toFloat_finite b Hb) as (m & e & ->).
  pose proof (toFloat_signed a) as Ha.
  destruct (Prim2SF (toFloat a)) as [s | s | | s ma ea]; simpl;
    try discriminate; try congruence.
  unfold SF64div, SFdiv.
  destruct (SFdiv_core_binary _ _ _ _ _ _) as [[mz ez] lz] eqn:E.
  assert (0 <= mz).
  { unfold SFdiv_core_binary in E.
    match type of E with context [Z.div_eucl ?n ?d] =>
      assert (Hn : 0 <= n)
        by (destruct (_ - _ - _); [lia | apply Z.shiftl_nonneg; lia | lia]);
      pose proof (Z.div_pos n d Hn ltac:(lia)) as Q;
      unfold Z.div in Q; destruct (Z.div_eucl n d) as [q r]
    end.
    injection E as <- _ _. exact Q. }
  pose proof (binary_round_aux_signed (xorb s false) mz ez lz H) as S.
  destruct (binary_round_aux _ _ _ _ _ _); simpl in *; try discriminate.
  contradiction.
Qed.

Lemma SFleb_trans x y z :
  SFleb x y = true -> SFleb y z = true -> SFleb x z = true.
Proof.
  unfold SFleb.
  destruct x as [sx | sx | | sx mx ex], y as [sy | sy | | sy my ey],
    z as [sz | sz | | sz mz ez]; simpl;
    repeat match goal with s : bool |- _ => destruct s end;
    try (intros; reflexivity); try (intros; discriminate).
  all: change (Pos.compare_cont Eq mx my) with (Pos.compare mx my);
       change (Pos.compare_cont Eq my mz) with (Pos.compare my mz);
       change (Pos.compare_cont Eq mx mz) with (Pos.compare mx mz).
  all: destruct (Z.compare_spec ex ey); destruct (Z.compare_spec ey ez);
       destruct (Z.compare_spec ex ez);
       try (intros; reflexivity); try (intros; discriminate); try lia.
  all: destruct (Pos.compare_spec mx my); destruct (Pos.compare_spec my mz);
       destruct (Pos.compare_spec mx mz); simpl;
       try (intros; reflexivity); try (intros; discriminate); try lia.
Qed.

Lemma leb_trans (x y z : float) :
  PrimFloat.leb x y = true -> PrimFloat.leb y z = true ->
  PrimFloat.leb x z = true.
Proof. rewrite !FloatAxioms.leb_spec. apply SFleb_trans. Qed.

Set Implicit Arguments.

End Doubles.

(** ** The throttle of the progress callback *)

Section Progress.

Variables (w : World) (p : LaunchParams) (comp : VideoConfig).

Lemma last_cons_default {A} (l : list A) :
  forall a d d', last (a :: l) d = last (a :: l) d'.
Proof.
  induction l as [|b l IH]; intros a d d'; [reflexivity|].
  change (last (b :: l) d = last (b :: l) d'). apply IH.
Qed.

Lemma persisted_app (a b : list Event) :
  persisted (a ++ b) = persisted a ++ persisted b.
Proof.
  induction a as [|e a IH]; simpl; [reflexivity|].
  destruct (persistedRelative e); simpl; now rewrite IH.
Qed.

(** One call either skips, and leaves [lastProgressUploaded] alone, or
    persists exactly the relative value of the observation and stores it
    in [lastProgressUploaded]. *)
Lemma onProgress_step (k : nat) (st : ProgressState) (o : Observation) :
  let r := onProgress w p comp k st o in
  (persisted (snd r) = [] /\
   lastProgressUploaded (fst r) = lastProgressUploaded st /\
   PrimFloat.ltb
     (PrimFloat.sub (relativeProgress comp o) (lastProgressUploaded st))
     tenth = true)
  \/
  (persisted (snd r) = [relativeProgress comp o] /\
   lastProgressUploaded (fst r) = relativeProgress comp o /\
   PrimFloat.ltb
     (PrimFloat.sub (relativeProgress comp o) (lastProgressUploaded st))
     tenth = false).
Proof.
  unfold onProgress.
  destruct (PrimFloat.ltb
              (PrimFloat.sub (relativeProgress comp o)
                 (lastProgressUploaded st)) tenth) eqn:E; simpl.
  - left. auto.
  - right. destruct (progressWritten w k); simpl; auto.
Qed.

(** As long as the relative values are numbers, the values written are in
    ascending order, starting above the value written before. *)
Lemma runProgress_sorted (obs : list Observation) :
  forall (k : nat) (st : ProgressState),
    is_nan (lastProgressUploaded st) = false ->
    Forall (fun o => is_nan (relativeProgress comp o) = false) obs ->
    let r := runProgress w p comp k st obs in
    StronglySorted fle (lastProgressUploaded st :: persisted (snd r)) /\
    lastProgressUploaded (fst r) =
      last (persisted (snd r)) (lastProgressUploaded st).
Proof.
  induction obs as [|o obs IH]; intros k st Hst Hobs; simpl.
  - split; [repeat constructor | reflexivity].
  - apply Forall_cons_iff in Hobs as [Ho Hobs].
    pose proof (onProgress_step k st o) as Hstep.
    destruct (onProgress w p comp k st o) as [st1 evs1]; simpl in Hstep.
    specialize (IH (S k) st1).
    destruct (runProgress w p comp (S k) st1 obs) as [st2 evs2].
    simpl in *. rewrite persisted_app.
    destruct Hstep as [(Hp & Hl & _) | (Hp & Hl & Hd)]; rewrite Hp; simpl.
    + rewrite Hl in IH. exact (IH Hst Hobs).
    + rewrite Hl in IH. destruct (IH Ho Hobs) as [Hs Hlast]. split.
      * assert (Hle : fle (lastProgressUploaded st) (relativeProgress comp o))
          by (apply sub_not_below_tenth; assumption).
        constructor; [exact Hs|].
        constructor; [exact Hle|].
        apply StronglySorted_inv in Hs. destruct Hs as [_ Hall].
        eapply Forall_impl; [|exact Hall].
        intros q Hq. simpl in Hq. eapply leb_trans; eauto.
      * rewrite Hlast. destruct (persisted evs2); [reflexivity|].
        apply last_cons_default.
Qed.

(** For a composition of at least one frame (and fewer than [2 ^ 53]),
    every relative value is a number. *)
Lemma relativeProgress_number (obs : list Observation) :
  0 < durationInFrames comp < 2 ^ 53 ->
  Forall (fun o => is_nan (relativeProgress comp o) = false) obs.
Proof.
  intros H. apply Forall_forall. intros o _.
  apply quotient_number, H.
Qed.

End Progress.

(** C3. For a composition of at least one frame, whatever the observations
    and whatever number the reporter holds as last uploaded value, the
    relative values it persists, computed in double precision as the code
    computes them and taken in the order the writes are issued, never
    decrease and never fall below the value persisted before; and after
    the run [lastProgressUploaded] is the last value written (or the
    former one when nothing was written).  A frame total of 0 is refused
    before the reporter exists (it would make the fraction [NaN], which is
    not ordered); totals from [2 ^ 53] on are not integers a JavaScript
    number counts exactly. *)
Theorem progress_writes_never_regress
    (w : World) (p : LaunchParams) (comp : VideoConfig) (k : nat)
    (st : ProgressState) (obs : list Observation) :
  0 < durationInFrames comp < 2 ^ 53 ->
  is_nan (lastProgressUploaded st) = false ->
  StronglySorted fle
    (lastProgressUploaded st ::
       persisted (snd (runProgress w p comp k st obs))) /\
  lastProgressUploaded (fst (runProgress w p comp k st obs)) =
    last (persisted (snd (runProgress w p comp k st obs)))
         (lastProgressUploaded st).
Proof.
  intros Hd Hst.
  apply runProgress_sorted; [exact Hst|].
  apply relativeProgress_number, Hd.
Qed.

Lemma progress_writes_never_regress_witness :
  StronglySorted fle
    (PrimFloat.zero ::
       persisted (snd (runProgress Sample.world Sample.params Sample.comp
                         0 initialProgress (observations Sample.world))))
  /\ lastProgressUploaded
       (fst (runProgress Sample.world Sample.params Sample.comp
               0 initialProgress (observations Sample.world)))
     = PrimFloat.one.
Proof.
  apply (progress_writes_never_regress Sample.world Sample.params Sample.comp
           0 initialProgress (observations Sample.world)).
  - split; reflexivity.
  - reflexivity.
Defined.

(** The throttle at exact tenths, in doubles: of 10, 20, ..., 100 frames
    out of 100 the reporter persists 10, 20, 40, 60, 80 and 100 (0.3 - 0.2
    is below 0.1 in doubles); of 20, 30, 35 and 40 it persists 20 and 35;
    after 90, the observation of 100 is skipped (1 - 0.9 is
    0.09999999999999998). *)
Example throttle_at_tenths :
  persisted
    (snd (runProgress Sample.world Sample.params Sample.comp 0 initialProgress
            (map (fun n => Sample.observe n 1100)
                 [10; 20; 30; 40; 50; 60; 70; 80; 90; 100]))) =
    map (fun n => PrimFloat.div (toFloat n) (toFloat 100))
        [10; 20; 40; 60; 80; 100] /\
  persisted
    (snd (runProgress Sample.world Sample.params Sample.comp 0 initialProgress
            (map (fun n => Sample.observe n 1100) [20; 30; 35; 40]))) =
    map (fun n => PrimFloat.div (toFloat n) (toFloat 100)) [20; 35] /\
  persisted
    (snd (runProgress Sample.world Sample.params Sample.comp 0 initialProgress
            (map (fun n => Sample.observe n 1100) [90; 100]))) =
    [PrimFloat.div (toFloat 90) (toFloat 100)].
Proof. repeat split. Qed.

(** C2, as the code has it. The only test before a write is
    [relative - lastProgressUploaded < 0.1], computed in double precision,
    whatever the relative value is: an observation is skipped exactly when
    that difference is below 0.1, also at [relative = 1]; otherwise the
    callback starts one write of an [EncodingProgress] carrying the
    observed frame count and stores the relative value in
    [lastProgressUploaded]. *)
Theorem write_skipped_iff_small_delta
    (w : World) (p : LaunchParams) (comp : VideoConfig) (k : nat)
    (st : ProgressState) (o : Observation) :
  (PrimFloat.ltb
     (PrimFloat.sub (relativeProgress comp o) (lastProgressUploaded st))
     tenth = true ->
     snd (onProgress w p comp k st o) = [] /\
     lastProgressUploaded (fst (onProgress w p comp k st o)) =
       lastProgressUploaded st)
  /\
  (PrimFloat.ltb
     (PrimFloat.sub (relativeProgress comp o) (lastProgressUploaded st))
     tenth = false ->
     exists e rest,
       snd (onProgress w p comp k st o) = Started (progressWrite p e) :: rest /\
       framesEncoded e = ob_framesEncoded o /\
       totalFrames e = durationInFrames comp /\
       timeToInvoke e = None /\
       persisted rest = [] /\
       lastProgressUploaded (fst (onProgress w p comp k st o)) =
         relativeProgress comp o).
Proof.
  unfold onProgress.
  destruct (PrimFloat.ltb
              (PrimFloat.sub (relativeProgress comp o)
                 (lastProgressUploaded st)) tenth) eqn:E.
  - split; [intros _; simpl; auto|]. intros H. discriminate.
  - split; [intros H; discriminate|].
    intros _. simpl. eexists. eexists. split; [reflexivity|].
    simpl. repeat split.
    destruct (progressWritten w k); reflexivity.
Qed.

Lemma write_skipped_iff_small_delta_witness :
  (snd (onProgress Sample.world Sample.params Sample.comp 0 initialProgress
          (Sample.observe 5 1100)) = [] /\
   lastProgressUploaded
     (fst (onProgress Sample.world Sample.params Sample.comp 0 initialProgress
             (Sample.observe 5 1100))) = PrimFloat.zero) /\
  (exists e rest,
     snd (onProgress Sample.world Sample.params Sample.comp 0 initialProgress
            (Sample.observe 15 1200)) =
       Started (progressWrite Sample.params e) :: rest /\
     framesEncoded e = 15 /\
     totalFrames e = 100 /\
     timeToInvoke e = None /\
     persisted rest = [] /\
     lastProgressUploaded
       (fst (onProgress Sample.world Sample.params Sample.comp 0
               initialProgress (Sample.observe 15 1200))) =
       relativeProgress Sample.comp (Sample.observe 15 1200)).
Proof.
  split.
  - apply (proj1 (write_skipped_iff_small_delta Sample.world Sample.params
                    Sample.comp 0 initialProgress (Sample.observe 5 1100))).
    reflexivity.
  - apply (proj2 (write_skipped_iff_small_delta Sample.world Sample.params
                    Sample.comp 0 initialProgress (Sample.observe 15 1200))).
    reflexivity.
Defined.

(** C2, as stated, fails: with 100 frames in total, after the observation
    of 95 frames was persisted, the observation of 100 frames has relative
    value 1 and is not written. *)
Lemma completion_not_flushed :
  PrimFloat.eqb (relativeProgress Sample.comp (Sample.observe 100 1400))
    PrimFloat.one = true /\
  persisted
    (snd (onProgress Sample.world Sample.params Sample.comp 0 initialProgress
            (Sample.observe 95 1300))) =
    [PrimFloat.div (toFloat 95) (toFloat 100)] /\
  snd (onProgress Sample.world Sample.params Sample.comp 1
         (fst (onProgress Sample.world Sample.params Sample.comp 0
                 initialProgress (Sample.observe 95 1300)))
         (Sample.observe 100 1400)) = [].
Proof.
  repeat split.
Qed.

(** C7, as the code has it. Every observation whose relative value is 1
    records the stop timestamp anew, with the clock of that observation;
    an observation with another relative value leaves it alone. *)
Theorem encodingStop_set_at_every_completion
    (w : World) (p : LaunchParams) (comp : VideoConfig) (k : nat)
    (st : ProgressState) (o : Observation) :
  0 < durationInFrames comp ->
  (PrimFloat.eqb (relativeProgress comp o) PrimFloat.one = true ->
     encodingStop (fst (onProgress w p comp k st o)) = Some (ob_now o))
  /\
  (PrimFloat.eqb (relativeProgress comp o) PrimFloat.one = false ->
     encodingStop (fst (onProgress w p comp k st o)) = encodingStop st).
Proof.
  intros _. unfold onProgress.
  destruct (PrimFloat.eqb (relativeProgress comp o) PrimFloat.one) eqn:E.
  - split; [|intros H; discriminate].
    intros _.
    destruct (PrimFloat.ltb _ _); reflexivity.
  - split; [intros H; discriminate|].
    intros _.
    destruct (PrimFloat.ltb _ _); reflexivity.
Qed.

Lemma encodingStop_set_at_every_completion_witness :
  encodingStop
    (fst (onProgress Sample.world Sample.params Sample.comp 0
            {| lastProgressUploaded := PrimFloat.one;
               encodingStop := Some 1400 |}
            (Sample.observe 100 1450))) = Some 1450.
Proof.
  apply (proj1 (encodingStop_set_at_every_completion Sample.world
                  Sample.params Sample.comp 0
                  {| lastProgressUploaded := PrimFloat.one;
                     encodingStop := Some 1400 |}
                  (Sample.observe 100 1450) eq_refl)).
  reflexivity.
Defined.

(** C7, as stated, fails: two observations of 100 frames out of 100, at
    times 1400 and 1450.  The first records 1400; the second replaces it
    by 1450. *)
Lemma encodingStop_overwritten :
  PrimFloat.eqb (relativeProgress Sample.comp (Sample.observe 100 1400))
    PrimFloat.one = true /\
  PrimFloat.eqb (relativeProgress Sample.comp (Sample.observe 100 1450))
    PrimFloat.one = true /\
  encodingStop
    (fst (runProgress Sample.world Sample.params Sample.comp 0 initialProgress
            [Sample.observe 100 1400])) = Some 1400 /\
  encodingStop
    (fst (runProgress Sample.world Sample.params Sample.comp 0 initialProgress
            [Sample.observe 100 1400; Sample.observe 100 1450])) = Some 1450.
Proof.
  repeat split.
Qed.

(** Scenario D of the spec: of the relative values 0.05, 0.15, 0.20 and
    1.0, the reporter persists 0.15 and 1.0. *)
Example scenario_D_persisted :
  persisted
    (snd (runProgress Sample.world Sample.params Sample.comp 0 initialProgress
            [Sample.observe 5 1100; Sample.observe 15 1200;
             Sample.observe 20 1300; Sample.observe 100 1400])) =
  [PrimFloat.div (toFloat 15) (toFloat 100);
   PrimFloat.div (toFloat 100) (toFloat 100)].
Proof. reflexivity. Qed.

(** ** The dispatch groups *)

Lemma roundSqrt_nearest (n : nat) :
  (4 * n < (2 * roundSqrt n + 1) * (2 * roundSqrt n + 1) /\
   (roundSqrt n = 0 \/
    (2 * roundSqrt n - 1) * (2 * roundSqrt n - 1) <= 4 * n))%nat.
Proof.
  unfold roundSqrt.
  pose proof (Nat.sqrt_spec n (Nat.le_0_l n)) as [Hlo Hhi].
  set (s := Nat.sqrt n) in *.
  destruct (Nat.ltb_spec (s * s + s) n) as [H | H].
  - split; [nia|]. right.
    replace (2 * S s - 1)%nat with (2 * s + 1)%nat by lia. nia.
  - split; [nia|].
    destruct s as [|s']; [left; reflexivity|right].
    replace (2 * S s' - 1)%nat with (2 * s' + 1)%nat by lia. nia.
Qed.

Lemma roundSqrt_le (n : nat) : (roundSqrt n <= n)%nat.
Proof.
  pose proof (roundSqrt_nearest n) as [_ [H | H]]; [lia|].
  destruct (roundSqrt n) as [|k]; [lia|].
  replace (2 * S k - 1)%nat with (2 * k + 1)%nat in H by lia. nia.
Qed.

Lemma roundSqrt_pos (n : nat) : (0 < n -> 0 < roundSqrt n)%nat.
Proof.
  intros Hn. pose proof (roundSqrt_nearest n) as [H _]. nia.
Qed.

Lemma chunk_length {A} (groups : nat) :
  forall input : list A, List.length (chunk input groups) = groups.
Proof.
  induction groups as [|g IH]; intros input; simpl; [reflexivity|].
  now rewrite IH.
Qed.

Lemma chunk_concat {A} (groups : nat) :
  forall input : list A, groups <> O -> List.concat (chunk input groups) = input.
Proof.
  induction groups as [|g IH]; intros input Hg; [congruence|].
  cbn [chunk List.concat]. destruct g as [|g'].
  - rewrite Nat.add_0_r, Nat.div_1_r, firstn_all. cbn [chunk List.concat].
    apply app_nil_r.
  - rewrite IH by discriminate. apply firstn_skipn.
Qed.

Lemma chunk_nonempty {A} (groups : nat) :
  forall input : list A,
    (groups <= List.length input)%nat ->
    Forall (fun g => g <> []) (chunk input groups).
Proof.
  induction groups as [|g IH]; intros input Hle; cbn [chunk]; [constructor|].
  set (n := List.length input) in *.
  assert (Hlo : (1 <= (n + g) / S g)%nat).
  { apply Nat.div_le_lower_bound; lia. }
  assert (Hhi : ((n + g) / S g <= n - g)%nat).
  { remember (n - g)%nat as m eqn:Em.
    assert (Hn : n = (m + g)%nat) by lia.
    assert (Hm : (1 <= m)%nat) by lia.
    apply Nat.lt_succ_r, Nat.Div0.div_lt_upper_bound.
    rewrite Hn.
    assert (Hgm : (g * 1 <= g * m)%nat) by (apply Nat.mul_le_mono_l; lia).
    lia. }
  constructor.
  - intros Hnil. apply (f_equal (@List.length A)) in Hnil.
    rewrite length_firstn in Hnil. fold n in Hnil.
    change (List.length (@nil A)) with O in Hnil. lia.
  - apply IH. rewrite length_skipn. fold n. lia.
Qed.

(** The groups of [chunk], for the payloads and the number of invokers of
    a launch: [invokers] is the rounding of the square root of the number
    of chunks to the nearest integer; the payload list is cut into exactly
    [invokers] groups; the groups, laid end to end, are the payload list
    itself (contiguous, nothing lost, nothing twice); and when there are
    at least [invokers] chunks no group is empty. *)
Lemma chunk_groups_partition
    (p : LaunchParams) (comp : VideoConfig) (chunks : list FrameRange) :
  let invokers := roundSqrt (List.length chunks) in
  let payloads := lambdaPayloads p comp chunks in
  let n := List.length chunks in
  ((4 * n < (2 * invokers + 1) * (2 * invokers + 1))%nat /\
   (invokers = O \/ (2 * invokers - 1) * (2 * invokers - 1) <= 4 * n)%nat) /\
  List.length payloads = n /\
  List.length (chunk payloads invokers) = invokers /\
  List.concat (chunk payloads invokers) = payloads /\
  ((invokers <= n)%nat ->
   Forall (fun g => g <> []) (chunk payloads invokers)).
Proof.
  intros invokers payloads n.
  assert (Hlen : List.length payloads = n).
  { unfold payloads, lambdaPayloads, identified.
    rewrite length_map, length_combine, length_seq. apply Nat.min_id. }
  split; [apply roundSqrt_nearest|].
  split; [exact Hlen|].
  split; [apply chunk_length|].
  split.
  - destruct (Nat.eq_dec n 0) as [En | En].
    + rewrite En in Hlen. apply length_zero_iff_nil in Hlen.
      rewrite Hlen. unfold invokers. fold n. rewrite En. reflexivity.
    + apply chunk_concat.
      assert (Hpos : (0 < roundSqrt n)%nat) by (apply roundSqrt_pos; lia).
      unfold invokers. fold n. lia.
  - intros Hle. apply chunk_nonempty. rewrite Hlen. exact Hle.
Qed.

(** Scenario A of the spec: 100 frames in chunks of 20 give five payloads,
    two invokers, and groups of three and two payloads. *)
Example scenario_A_groups :
  map (@List.length RendererPayload)
    (chunk (lambdaPayloads Sample.params Sample.comp
              (fst (Sample.plan (ceilDiv 100 20) 20 100 None false)))
           (roundSqrt 5)) = [3; 2]%nat.
Proof. reflexivity. Qed.

(** ** Runs *)

Lemma bind_throws {A B} (m : Run A) (k : A -> Run B) (e : Exn) :
  result m = inl e -> bind m k = (trace m, inl e).
Proof.
  destruct m as [t [e'|a]]; simpl; intros H; congruence.
Qed.

Lemma bind_returns {A B} (m : Run A) (k : A -> Run B) (a : A) :
  result m = inr a -> bind m k = (trace m ++ trace (k a), result (k a)).
Proof.
  destruct m as [t [e'|a']]; simpl; intros H; [congruence|].
  injection H as ->. destruct (k a); reflexivity.
Qed.

Lemma launchHandler_handled (w : World) (p : LaunchParams) (o : Options) :
  launchHandler w (PLaunch p) o =
  handled w (innerLaunchHandler w (PLaunch p) o).
Proof.
  unfold launchHandler, tryCatch, handled.
  destruct (innerLaunchHandler w (PLaunch p) o) as [t [err|a]];
    [|reflexivity].
  unfold await, start, emit, settle, ofBool, bind.
  destruct (errorWritten w); reflexivity.
Qed.

(** ** Validation comes first *)

(** C8. A launch request whose [framesPerLambda] is below 1 fails with an
    error of the validation kind, and the inner launch has performed no
    event at all by then: no read, no write, no invocation.  The only
    store write of the whole handler is the error record written
    afterwards. *)
Theorem framesPerLambda_below_one_rejected
    (w : World) (p : LaunchParams) (o : Options) (n : Z) :
  framesPerLambda p = Some n ->
  n < 1 ->
  exists err,
    innerLaunchHandler w (PLaunch p) o = ([], inl err) /\
    isValidationError err = true /\
    filter isStoreWrite (trace (launchHandler w (PLaunch p) o)) =
      [Started (WriteLambdaError (fatalError w err))].
Proof.
  intros Hf Hn.
  assert (Hinner : exists err,
             innerLaunchHandler w (PLaunch p) o = ([], inl err) /\
             isValidationError err = true).
  { unfold innerLaunchHandler. rewrite Hf.
    destruct n as [|n'|n'].
    - exists FramesPerLambdaMissing. split; reflexivity.
    - lia.
    - exists (Invalid FramesPerLambda). split; reflexivity. }
  destruct Hinner as (err & Hrun & Hkind).
  exists err. repeat split; try assumption.
  rewrite launchHandler_handled, Hrun. reflexivity.
Qed.

Lemma framesPerLambda_below_one_rejected_witness :
  exists err,
    innerLaunchHandler Sample.world
      (PLaunch (Sample.withFramesPerLambda (Some 0) Sample.params))
      Sample.options = ([], inl err) /\
    isValidationError err = true /\
    filter isStoreWrite
      (trace (launchHandler Sample.world
                (PLaunch (Sample.withFramesPerLambda (Some 0) Sample.params))
                Sample.options)) =
      [Started (WriteLambdaError (fatalError Sample.world err))].
Proof.
  apply (framesPerLambda_below_one_rejected Sample.world
           (Sample.withFramesPerLambda (Some 0) Sample.params)
           Sample.options (n := 0)).
  - reflexivity.
  - lia.
Defined.

(** ** Symbolic execution of a run *)

Lemma wp_bind {A B} (m : Run A) (k : A -> Run B) post :
  wp m (fun t r =>
          match r with
          | inl e => post t (inl e)
          | inr a => wp (k a) (fun t' r' => post (t ++ t') r')
          end) ->
  wp (bind m k) post.
Proof.
  unfold wp. destruct m as [t [e|a]]; simpl; [auto|].
  destruct (k a) as [t' r]; simpl. auto.
Qed.

Lemma wp_ret {A} (a : A) post : post [] (inr a) -> wp (ret a) post.
Proof. auto. Qed.

Lemma wp_throw {A} (e : Exn) (post : list Event -> Exn + A -> Prop) :
  post [] (inl e) -> wp (throw e) post.
Proof. auto. Qed.

Lemma wp_start (c : Call) post :
  post [Started c] (inr tt) -> wp (start c) post.
Proof. auto. Qed.

Lemma wp_emits {A} (evs : list Event) (a : A) post :
  post evs (inr a) -> wp (emits evs a) post.
Proof. auto. Qed.

Lemma wp_settle {A} (c : Call) (o : Outcome A) post :
  (forall a, o = Fulfilled a -> post [Settled c true] (inr a)) ->
  (o = Fails -> post [Settled c false] (inl (Rejected c))) ->
  wp (settle c o) post.
Proof. unfold wp. destruct o; simpl; auto. Qed.

Lemma wp_settle_bool (c : Call) (b : bool) post :
  (b = true -> post [Settled c true] (inr tt)) ->
  (b = false -> post [Settled c false] (inl (Rejected c))) ->
  wp (settle c (ofBool b)) post.
Proof. unfold wp. destruct b; simpl; auto. Qed.

Lemma fireCalls_invoke groups :
  Forall (fun c => exists i ps, c = Invoke i ps) (fireCalls groups).
Proof.
  unfold fireCalls. apply Forall_forall. intros c Hc.
  apply in_map_iff in Hc. destruct Hc as ([i ps] & <- & _). eauto.
Qed.

Lemma startAll_run calls :
  startAll calls = (map Started calls, inr tt).
Proof.
  induction calls as [|c calls IH]; [reflexivity|].
  simpl. rewrite IH. reflexivity.
Qed.

Lemma wp_startAll_fire groups post :
  (forall t, Forall DispatchStart t -> post t (inr tt)) ->
  wp (startAll (fireCalls groups)) post.
Proof.
  intros H. unfold wp. rewrite startAll_run. simpl. apply H.
  apply Forall_forall. intros e He. apply in_map_iff in He.
  destruct He as (c & <- & Hc).
  pose proof (fireCalls_invoke groups) as Hall.
  rewrite Forall_forall in Hall. destruct (Hall c Hc) as (i & ps & ->).
  constructor.
Qed.

Lemma joinAll_settled calls :
  Forall (fun e => exists c ok, e = Settled c ok /\ In c (map fst calls))
         (trace (joinAll calls)).
Proof.
  induction calls as [|[c ok] calls IH]; [constructor|].
  cbn [joinAll]. destruct ok; simpl.
  - destruct (joinAll calls) as [t r]; simpl in *. constructor.
    + exists c, true. auto.
    + eapply Forall_impl; [|exact IH]. intros e (c' & ok' & -> & Hin); eauto.
  - constructor; [|constructor]. exists c, false. auto.
Qed.

Lemma wp_joinAll_fire w groups post :
  (forall t r, Forall DispatchJoin t -> post t r) ->
  wp (joinAll (answered w (fireCalls groups))) post.
Proof.
  intros H. unfold wp. apply H.
  eapply Forall_impl; [|apply joinAll_settled].
  intros e (c & ok & -> & Hin).
  assert (Hc : In c (fireCalls groups)).
  { unfold answered in Hin. rewrite map_map in Hin. simpl in Hin.
    apply in_map_iff in Hin. destruct Hin as ([i c'] & <- & Hin).
    apply in_combine_r in Hin. exact Hin. }
  pose proof (fireCalls_invoke groups) as Hall.
  rewrite Forall_forall in Hall. destruct (Hall c Hc) as (i & ps & ->).
  constructor.
Qed.

Lemma onProgress_events w p comp k st o :
  Forall (ProgressEvent w p) (snd (onProgress w p comp k st o)).
Proof.
  unfold onProgress. destruct (PrimFloat.ltb _ _); simpl; [constructor|].
  destruct (progressWritten w k); repeat constructor.
Qed.

Lemma runProgress_events w p comp obs :
  forall k st, Forall (ProgressEvent w p) (snd (runProgress w p comp k st obs)).
Proof.
  induction obs as [|o obs IH]; intros k st; simpl; [constructor|].
  pose proof (onProgress_events w p comp k st o) as H1.
  destruct (onProgress w p comp k st o) as [st1 evs1].
  specialize (IH (S k) st1).
  destruct (runProgress w p comp (S k) st1 obs) as [st2 evs2].
  simpl in *. apply Forall_app; auto.
Qed.

(** Checking a trace piecewise. *)
Lemma guardedBy_app g b (t1 t2 : list Event) :
  guardedBy g b (t1 ++ t2) =
  guardedBy g b t1 && (existsb g t1 || guardedBy g b t2).
Proof.
  induction t1 as [|e t1 IH]; simpl; [reflexivity|].
  rewrite IH. destruct (b e), (g e), (guardedBy g b t1); simpl; try reflexivity.
Qed.

Lemma countb_app P (t1 t2 : list Event) :
  countb P (t1 ++ t2) = (countb P t1 + countb P t2)%nat.
Proof.
  unfold countb. now rewrite filter_app, length_app.
Qed.

Section Classes.

Variable C : Event -> Prop.

Lemma class_forallb (t : list Event) (Ht : Forall C t) P :
  (forall e, C e -> P e = true) -> forallb P t = true.
Proof.
  intros HP. apply forallb_forall. intros e He.
  rewrite Forall_forall in Ht. auto.
Qed.

Lemma class_filter (t : list Event) (Ht : Forall C t) P :
  (forall e, C e -> P e = false) -> filter P t = [].
Proof.
  intros HP. induction t as [|e t' IH]; [reflexivity|].
  apply Forall_cons_iff in Ht. destruct Ht as [He Ht'].
  simpl. rewrite (HP e He). auto.
Qed.

Lemma class_existsb (t : list Event) (Ht : Forall C t) P :
  (forall e, C e -> P e = false) -> existsb P t = false.
Proof.
  intros HP. induction t as [|e t' IH]; [reflexivity|].
  apply Forall_cons_iff in Ht. destruct Ht as [He Ht'].
  simpl. rewrite (HP e He). auto.
Qed.

Lemma class_countb (t : list Event) (Ht : Forall C t) P :
  (forall e, C e -> P e = false) -> countb P t = O.
Proof.
  intros HP. unfold countb. now rewrite (class_filter Ht).
Qed.

Lemma class_guardedBy (t : list Event) (Ht : Forall C t) g b :
  (forall e, C e -> b e = false) -> guardedBy g b t = true.
Proof.
  intros HP. induction t as [|e t' IH]; [reflexivity|].
  apply Forall_cons_iff in Ht. destruct Ht as [He Ht'].
  simpl. rewrite (HP e He), (IH Ht'). simpl. apply orb_true_r.
Qed.

End Classes.

Lemma guardedBy_split g b (t t1 t2 : list Event) (e : Event) :
  guardedBy g b t = true ->
  t = t1 ++ e :: t2 ->
  b e = true ->
  exists e', In e' t1 /\ g e' = true.
Proof.
  intros H -> Hb. rewrite guardedBy_app in H. simpl in H. rewrite Hb in H.
  simpl in H. rewrite andb_true_iff, orb_false_r in H.
  destruct H as [_ H]. apply existsb_exists in H. exact H.
Qed.

Lemma privacyEqb_refl (a : Privacy) : privacyEqb a a = true.
Proof. destruct a; reflexivity. Qed.

Lemma privacyEqb_eq (a b : Privacy) : privacyEqb a b = true -> a = b.
Proof. destruct a, b; simpl; congruence. Qed.

Ltac class_case :=
  let e := fresh "e" in
  let H := fresh "H" in
  intros e H; destruct H; cbn;
  rewrite ?String.eqb_refl, ?Z.eqb_refl, ?privacyEqb_refl;
  reflexivity.

(** Brings the check of a trace down to its pieces. *)
Ltac pieces :=
  repeat first
    [ progress cbn
    | rewrite forallb_app
    | rewrite existsb_app
    | rewrite guardedBy_app
    | rewrite countb_app
    | rewrite filter_app
    | rewrite String.eqb_refl
    | rewrite Z.eqb_refl
    | rewrite privacyEqb_refl
    | match goal with
      | H : Forall _ ?t |- context [forallb ?P ?t] =>
          rewrite (class_forallb H P) by class_case
      | H : Forall _ ?t |- context [existsb ?P ?t] =>
          rewrite (class_existsb H P) by class_case
      | H : Forall _ ?t |- context [guardedBy ?g ?b ?t] =>
          rewrite (class_guardedBy H g b) by class_case
      | H : Forall _ ?t |- context [countb ?P ?t] =>
          rewrite (class_countb H P) by class_case
      | H : Forall _ ?t |- context [filter ?P ?t] =>
          rewrite (class_filter H P) by class_case
      end ].

(** One step of the run. *)
Ltac step :=
  lazymatch goal with
  | |- wp (bind _ _) _ => apply wp_bind
  | |- wp (ret _) _ => apply wp_ret
  | |- wp (throw _) _ => apply wp_throw
  | |- wp (start _) _ => apply wp_start
  | |- wp (emits _ _) _ => apply wp_emits
  | |- wp (await _ _) _ => unfold await
  | |- wp (settle _ (ofBool _)) _ =>
      apply wp_settle_bool; intros ?; try congruence
  | |- wp (settle _ _) _ =>
      apply wp_settle; [intros ? ? | intros ?]; try congruence
  | |- wp (startAll (fireCalls _)) _ =>
      apply wp_startAll_fire; intros ? ?
  | |- wp (joinAll (answered _ (fireCalls _))) _ =>
      apply wp_joinAll_fire;
      let r := fresh "r" in intros ? r ?; destruct r as [?|[]]
  | |- wp (joinAll _) _ => cbn [joinAll]
  | |- wp (validateFramesPerLambda ?n) _ =>
      unfold validateFramesPerLambda; destruct (n <? 1) eqn:?
  | |- wp (validateDurationInFrames ?n) _ =>
      unfold validateDurationInFrames; destruct (n <? 1) eqn:?
  | |- wp (check ?b _) _ => unfold check; destruct b eqn:?
  | |- wp (if ?b then _ else _) _ => destruct b eqn:?
  | |- wp (let (_, _) := runProgress ?w ?p ?c ?k ?st ?obs in _) _ =>
      let H := fresh "Hprogress" in
      pose proof (runProgress_events w p c obs k st) as H;
      destruct (runProgress w p c k st obs) eqn:?;
      cbn [snd] in H
  | |- wp (let (_, _) := ?x in _) _ => destruct x eqn:?
  | |- wp (match ?x with _ => _ end) _ => destruct x eqn:?
  end; cbv beta iota; cbn [app].

Ltac run := repeat step.

Lemma wp_whole {A} (m : Run A) (Q : Run A -> Prop) :
  wp m (fun t r => Q (t, r)) -> Q m.
Proof. unfold wp. destruct m; simpl. auto. Qed.

Ltac launch w p o Q :=
  apply (wp_whole (innerLaunchHandler w (PLaunch p) o) Q);
  unfold innerLaunchHandler; run;
  unfold handled, trace, result, fst, snd.

(** ** Facts that hold along every path of the launch *)

Lemma launch_privacyRule w p o :
  forallb (privacyRule p) (trace (launchHandler w (PLaunch p) o)) = true.
Proof.
  rewrite launchHandler_handled.
  launch w p o
    (fun m => forallb (privacyRule p) (trace (handled w m)) = true).
  all: pieces; reflexivity.
Qed.

Lemma launch_metadata_guard w p o :
  guardedBy (isMetadataDurable p) isInvocation
    (trace (launchHandler w (PLaunch p) o)) = true.
Proof.
  rewrite launchHandler_handled.
  launch w p o
    (fun m => guardedBy (isMetadataDurable p) isInvocation
                (trace (handled w m)) = true).
  all: pieces; reflexivity.
Qed.

Lemma launch_metadata_rejected w p o :
  metadataWritten w = false ->
  existsb isInvocation (trace (launchHandler w (PLaunch p) o)) = false /\
  exists err,
    result (innerLaunchHandler w (PLaunch p) o) = inl err /\
    In (Started (WriteLambdaError (fatalError w err)))
       (trace (launchHandler w (PLaunch p) o)).
Proof.
  intros Hmeta. rewrite launchHandler_handled.
  launch w p o
    (fun m =>
       existsb isInvocation (trace (handled w m)) = false /\
       exists err, result m = inl err /\
         In (Started (WriteLambdaError (fatalError w err)))
            (trace (handled w m))).
  all: split;
    [ pieces; reflexivity
    | eexists; split; [reflexivity|];
      apply in_or_app; right; simpl; auto ].
Qed.

Lemma inner_no_fatal_write w p o :
  countb isFatalErrorWrite (trace (innerLaunchHandler w (PLaunch p) o)) = O.
Proof.
  launch w p o (fun m : Run unit => countb isFatalErrorWrite (trace m) = O).
  all: pieces; reflexivity.
Qed.

Lemma launch_final_progress_guard w p o :
  guardedBy (isFinalProgressDurable p) isPostRenderWrite
    (trace (launchHandler w (PLaunch p) o)) = true.
Proof.
  rewrite launchHandler_handled.
  launch w p o
    (fun m => guardedBy (isFinalProgressDurable p) isPostRenderWrite
                (trace (handled w m)) = true).
  all: pieces; reflexivity.
Qed.

Lemma inner_one_post_render_write w p o :
  result (innerLaunchHandler w (PLaunch p) o) = inr tt ->
  countb isPostRenderWrite (trace (innerLaunchHandler w (PLaunch p) o)) = 1%nat.
Proof.
  launch w p o
    (fun m : Run unit =>
       result m = inr tt -> countb isPostRenderWrite (trace m) = 1%nat).
  all: try discriminate.
  all: intros _; pieces; reflexivity.
Qed.

Lemma launch_removal_guard w p o :
  guardedBy isPostRenderDurable isLocalCopyRemoval
    (trace (launchHandler w (PLaunch p) o)) = true.
Proof.
  rewrite launchHandler_handled.
  launch w p o
    (fun m => guardedBy isPostRenderDurable isLocalCopyRemoval
                (trace (handled w m)) = true).
  all: pieces; reflexivity.
Qed.

Lemma launch_cleanup_await_guard w p o :
  guardedBy isPostRenderDurable isChunkCleanupAwait
    (trace (launchHandler w (PLaunch p) o)) = true.
Proof.
  rewrite launchHandler_handled.
  launch w p o
    (fun m => guardedBy isPostRenderDurable isChunkCleanupAwait
                (trace (handled w m)) = true).
  all: pieces; reflexivity.
Qed.

Lemma launch_no_cleanup_start w p o :
  existsb isChunkCleanupStart (trace (launchHandler w (PLaunch p) o)) = false.
Proof.
  rewrite launchHandler_handled.
  launch w p o
    (fun m => existsb isChunkCleanupStart (trace (handled w m)) = false).
  all: pieces; reflexivity.
Qed.

Ltac find_in :=
  repeat first [ apply in_eq | apply in_cons | (apply in_or_app; right) ].

Lemma inner_release_done w p o :
  result (innerLaunchHandler w (PLaunch p) o) = inr tt ->
  exists c,
    concatenated w = Fulfilled c /\
    In (Started (RmOutfile (outfile c)))
       (trace (innerLaunchHandler w (PLaunch p) o)) /\
    In (Settled CleanupChunks true)
       (trace (innerLaunchHandler w (PLaunch p) o)) /\
    In (Settled (RmOutfile (outfile c)) true)
       (trace (innerLaunchHandler w (PLaunch p) o)).
Proof.
  launch w p o
    (fun m : Run unit =>
       result m = inr tt ->
       exists c,
         concatenated w = Fulfilled c /\
         In (Started (RmOutfile (outfile c))) (trace m) /\
         In (Settled CleanupChunks true) (trace m) /\
         In (Settled (RmOutfile (outfile c)) true) (trace m)).
  all: try discriminate.
  all: intros _; eexists; split; [eassumption|].
  all: unfold trace, fst; repeat split; find_in.
Qed.

Lemma handled_returns w (m : Run unit) :
  result m = inr tt -> handled w m = m.
Proof.
  destruct m as [t [e|[]]]; simpl; [discriminate|reflexivity].
Qed.

Lemma handled_throws w (m : Run unit) err :
  result m = inl err ->
  handled w m =
    (trace m ++ [ConsoleLog;
                 Started (WriteLambdaError (fatalError w err));
                 Settled (WriteLambdaError (fatalError w err)) (errorWritten w)],
     if errorWritten w then inr tt
     else inl (Rejected (WriteLambdaError (fatalError w err)))).
Proof.
  destruct m as [t [e|[]]]; simpl; [|discriminate].
  intros H. injection H as ->. reflexivity.
Qed.

(** ** The launch protocol *)

(** C1. In every launch, an invocation of a fire group is submitted only
    after the write of the RenderMetadata was awaited and fulfilled; and
    when the store rejects that write, the launch fails, the handler
    records the failure as a fatal error, and no invocation is submitted
    at all. *)
Theorem metadata_durable_before_dispatch
    (w : World) (p : LaunchParams) (o : Options) :
  (forall t1 i ps t2,
     trace (launchHandler w (PLaunch p) o) =
       t1 ++ Started (Invoke i ps) :: t2 ->
     exists m, In (Settled (metadataWrite p m) true) t1)
  /\
  (metadataWritten w = false ->
   (forall i ps,
      ~ In (Started (Invoke i ps)) (trace (launchHandler w (PLaunch p) o))) /\
   exists err,
     result (innerLaunchHandler w (PLaunch p) o) = inl err /\
     isFatal (fatalError w err) = true /\
     In (Started (WriteLambdaError (fatalError w err)))
        (trace (launchHandler w (PLaunch p) o))).
Proof.
  split.
  - intros t1 i ps t2 Ht.
    destruct (guardedBy_split _ _ _ _ _ (launch_metadata_guard w p o) Ht
                eq_refl) as (e & Hin & He).
    destruct e as [c|c ok|]; try discriminate.
    destruct c as [| | |key body pr| | | | | | | | | | |]; try discriminate.
    destruct key as [r|r|r c]; try discriminate.
    destruct body as [m|s|f]; try discriminate.
    destruct pr; try discriminate.
    destruct ok; try discriminate.
    simpl in He. apply String.eqb_eq in He. subst r.
    exists m. exact Hin.
  - intros Hmeta.
    destruct (launch_metadata_rejected w p o Hmeta) as (Hno & err & Hr & Hin).
    split.
    + intros i ps Hin'.
      assert (Hex : existsb isInvocation
                      (trace (launchHandler w (PLaunch p) o)) = true).
      { apply existsb_exists. exists (Started (Invoke i ps)). auto. }
      congruence.
    + exists err. auto.
Qed.

Lemma metadata_durable_before_dispatch_witness :
  (forall i ps,
     ~ In (Started (Invoke i ps))
          (trace (launchHandler (Sample.worldWith false true true)
                    (PLaunch Sample.params) Sample.options))) /\
  exists err,
    result (innerLaunchHandler (Sample.worldWith false true true)
              (PLaunch Sample.params) Sample.options) = inl err /\
    isFatal (fatalError (Sample.worldWith false true true) err)
      = true /\
    In (Started (WriteLambdaError
                   (fatalError (Sample.worldWith false true true)
                      err)))
       (trace (launchHandler (Sample.worldWith false true true)
                 (PLaunch Sample.params) Sample.options)).
Proof.
  apply (proj2 (metadata_durable_before_dispatch
                  (Sample.worldWith false true true)
                  Sample.params Sample.options)).
  reflexivity.
Defined.

(** C4, as the code has it. When the inner launch throws, the handler
    logs, then starts and awaits exactly one write of an ErrorInfo with
    [isFatal = true], [attempt = 1], [totalAttempts = 1],
    [willRetry = false], the stack of the exception and the diagnostic
    computed from that stack; it is the only fatal record of the run.
    The handler returns normally when that write is fulfilled; when the
    write is rejected the rejection leaves the handler. *)
Theorem fatal_error_recorded_once
    (w : World) (p : LaunchParams) (o : Options) (err : Exn) :
  result (innerLaunchHandler w (PLaunch p) o) = inl err ->
  let info := fatalError w err in
  trace (launchHandler w (PLaunch p) o) =
    trace (innerLaunchHandler w (PLaunch p) o) ++
    [ConsoleLog; Started (WriteLambdaError info);
     Settled (WriteLambdaError info) (errorWritten w)] /\
  (isFatal info = true /\ attempt info = 1 /\ totalAttempts info = 1 /\
   willRetry info = false /\ stack info = stackOf w err /\
   tmpDir info = getTmpDirStateIfENoSp w (stackOf w err)) /\
  countb isFatalErrorWrite (trace (launchHandler w (PLaunch p) o)) = 1%nat /\
  result (launchHandler w (PLaunch p) o) =
    (if errorWritten w then inr tt
     else inl (Rejected (WriteLambdaError info))).
Proof.
  intros Herr info.
  rewrite launchHandler_handled, (handled_throws w _ Herr).
  split; [reflexivity|].
  split; [repeat split|].
  split; [|reflexivity].
  unfold trace at 1. cbn [fst]. rewrite countb_app, inner_no_fatal_write.
  reflexivity.
Qed.

Lemma fatal_error_recorded_once_witness :
  countb isFatalErrorWrite
    (trace (launchHandler Sample.world
              (PLaunch (Sample.withFramesPerLambda (Some 0) Sample.params))
              Sample.options)) = 1%nat /\
  result (launchHandler Sample.world
            (PLaunch (Sample.withFramesPerLambda (Some 0) Sample.params))
            Sample.options) = inr tt.
Proof.
  assert (H : result (innerLaunchHandler Sample.world
                        (PLaunch (Sample.withFramesPerLambda (Some 0)
                                    Sample.params))
                        Sample.options) = inl FramesPerLambdaMissing)
    by reflexivity.
  destruct (fatal_error_recorded_once Sample.world
              (Sample.withFramesPerLambda (Some 0) Sample.params)
              Sample.options H) as (_ & _ & Hcount & Hres).
  split; [exact Hcount | exact Hres].
Defined.

(** C4, as stated, fails: the inner launch throws (no framesPerLambda),
    the store rejects the write of the error record, and the handler
    rethrows that rejection. *)
Lemma error_write_failure_escapes :
  result (innerLaunchHandler (Sample.worldWith true true false)
            (PLaunch (Sample.withFramesPerLambda (Some 0) Sample.params))
            Sample.options) = inl FramesPerLambdaMissing /\
  result (launchHandler (Sample.worldWith true true false)
            (PLaunch (Sample.withFramesPerLambda (Some 0) Sample.params))
            Sample.options) =
    inl (Rejected
           (WriteLambdaError
              (fatalError (Sample.worldWith true true false)
                 FramesPerLambdaMissing))).
Proof.
  split; reflexivity.
Qed.

(** C6. In every successful launch the PostRenderManifest is written
    exactly once, and that write starts only after the write of the final
    EncodingProgress (all frames encoded) was awaited and fulfilled. *)
Theorem final_progress_before_post_render
    (w : World) (p : LaunchParams) (o : Options) :
  result (innerLaunchHandler w (PLaunch p) o) = inr tt ->
  countb isPostRenderWrite (trace (launchHandler w (PLaunch p) o)) = 1%nat /\
  forall t1 d t2,
    trace (launchHandler w (PLaunch p) o) =
      t1 ++ Started (WritePostRenderData d) :: t2 ->
    exists s,
      In (Settled (progressWrite p s) true) t1 /\
      framesEncoded s = totalFrames s.
Proof.
  intros Hok. split.
  - rewrite launchHandler_handled, (handled_returns w _ Hok).
    apply inner_one_post_render_write, Hok.
  - intros t1 d t2 Ht.
    destruct (guardedBy_split _ _ _ _ _ (launch_final_progress_guard w p o) Ht
                eq_refl) as (e & Hin & He).
    destruct e as [c|c ok|]; try discriminate.
    destruct c as [| | |key body pr| | | | | | | | | | |]; try discriminate.
    destruct key as [r|r|r c]; try discriminate.
    destruct body as [m|s|f]; try discriminate.
    destruct pr; try discriminate.
    destruct ok; try discriminate.
    simpl in He. apply andb_true_iff in He. destruct He as [Hr Hs].
    apply String.eqb_eq in Hr. apply Z.eqb_eq in Hs. subst r.
    exists s. split; [exact Hin | exact Hs].
Qed.

Lemma final_progress_before_post_render_witness :
  countb isPostRenderWrite
    (trace (launchHandler Sample.world (PLaunch Sample.params)
              Sample.options)) = 1%nat /\
  forall t1 d t2,
    trace (launchHandler Sample.world (PLaunch Sample.params) Sample.options)
      = t1 ++ Started (WritePostRenderData d) :: t2 ->
    exists s,
      In (Settled (progressWrite Sample.params s) true) t1 /\
      framesEncoded s = totalFrames s.
Proof.
  apply (final_progress_before_post_render Sample.world Sample.params
           Sample.options).
  reflexivity.
Defined.

(** C9, as the code has it. The local copy of the merged artifact is
    removed only as the last step of the success path: in every launch
    the removal starts only after the write of the PostRenderManifest has
    succeeded, so a launch that fails before that point leaves the local
    copy in place.  The chunk scratch files are not released by the
    launch itself: no launch starts their cleanup (the concatenator did),
    and the launch awaits the promise of that cleanup only at that same
    last step.  A launch that succeeds has seen both the removal and the
    cleanup complete. *)
Theorem release_only_after_post_render
    (w : World) (p : LaunchParams) (o : Options) :
  (result (innerLaunchHandler w (PLaunch p) o) = inr tt ->
   exists c,
     concatenated w = Fulfilled c /\
     In (Started (RmOutfile (outfile c)))
        (trace (launchHandler w (PLaunch p) o)) /\
     In (Settled CleanupChunks true)
        (trace (launchHandler w (PLaunch p) o)) /\
     In (Settled (RmOutfile (outfile c)) true)
        (trace (launchHandler w (PLaunch p) o)))
  /\
  (forall t1 e t2,
     trace (launchHandler w (PLaunch p) o) = t1 ++ e :: t2 ->
     isLocalCopyRemoval e = true \/ isChunkCleanupAwait e = true ->
     exists d, In (Settled (WritePostRenderData d) true) t1)
  /\
  (forall e,
     In e (trace (launchHandler w (PLaunch p) o)) ->
     isChunkCleanupStart e = false).
Proof.
  split; [|split].
  - intros Hok. rewrite launchHandler_handled, (handled_returns w _ Hok).
    apply inner_release_done, Hok.
  - intros t1 e t2 Ht He.
    assert (Hg : exists e', In e' t1 /\ isPostRenderDurable e' = true).
    { destruct He as [He | He].
      - exact (guardedBy_split _ _ _ _ _ (launch_removal_guard w p o) Ht He).
      - exact (guardedBy_split _ _ _ _ _
                 (launch_cleanup_await_guard w p o) Ht He). }
    destruct Hg as (e' & Hin & He').
    destruct e' as [c|c ok|]; try discriminate.
    destruct c; try discriminate.
    destruct ok; try discriminate.
    eauto.
  - intros e Hin.
    destruct (isChunkCleanupStart e) eqn:E; [|reflexivity].
    pose proof (launch_no_cleanup_start w p o) as Hnone.
    assert (Hex : existsb isChunkCleanupStart
                    (trace (launchHandler w (PLaunch p) o)) = true)
      by (apply existsb_exists; eauto).
    congruence.
Qed.

Lemma release_only_after_post_render_witness :
  exists c,
    concatenated Sample.world = Fulfilled c /\
    In (Started (RmOutfile (outfile c)))
       (trace (launchHandler Sample.world (PLaunch Sample.params)
                 Sample.options)) /\
    In (Settled CleanupChunks true)
       (trace (launchHandler Sample.world (PLaunch Sample.params)
                 Sample.options)) /\
    In (Settled (RmOutfile (outfile c)) true)
       (trace (launchHandler Sample.world (PLaunch Sample.params)
                 Sample.options)).
Proof.
  apply (proj1 (release_only_after_post_render Sample.world Sample.params
                  Sample.options)).
  reflexivity.
Defined.

(** C9, as stated, fails for the local copy of the merged artifact: the
    concatenator delivers the artifact, the upload of the artifact is
    rejected, the launch fails, and the removal of the local copy does
    not occur in the run. *)
Lemma no_release_when_upload_fails :
  In (Settled ConcatVideosS3 true)
     (trace (launchHandler (Sample.worldWith true false true)
               (PLaunch Sample.params) Sample.options)) /\
  (exists err,
     result (innerLaunchHandler (Sample.worldWith true false true)
               (PLaunch Sample.params) Sample.options) = inl err) /\
  existsb isLocalCopyRemoval
    (trace (launchHandler (Sample.worldWith true false true)
              (PLaunch Sample.params) Sample.options)) = false.
Proof.
  split; [|split].
  - vm_compute. tauto.
  - eexists. vm_compute. reflexivity.
  - vm_compute. reflexivity.
Qed.

(** C10. Whatever the privacy of the job, every write the launch makes
    through [lambdaWriteFile] is one of three: the RenderMetadata, written
    private; an EncodingProgress snapshot (throttled or final), written
    private; or the merged output artifact, written under the privacy of
    the job. *)
Theorem only_output_under_job_privacy
    (w : World) (p : LaunchParams) (o : Options)
    (key : Key) (body : Body) (pr : Privacy) :
  In (Started (LambdaWriteFile key body pr))
     (trace (launchHandler w (PLaunch p) o)) ->
  match key with
  | renderMetadataKey _ =>
      pr = Private /\ exists m, body = JsonRenderMetadata m
  | encodingProgressKey _ =>
      pr = Private /\ exists s, body = JsonEncodingProgress s
  | outName _ _ =>
      pr = privacy p /\ exists f, body = ReadStream f
  end.
Proof.
  intros Hin.
  pose proof (launch_privacyRule w p o) as Hall.
  rewrite forallb_forall in Hall. specialize (Hall _ Hin).
  simpl in Hall.
  destruct key, body; try discriminate;
    (split; [apply privacyEqb_eq, Hall | eauto]).
Qed.

Lemma only_output_under_job_privacy_witness :
  Public = privacy Sample.params /\
  exists f, ReadStream "/tmp/out.mp4" = ReadStream f.
Proof.
  apply (only_output_under_job_privacy Sample.world Sample.params
           Sample.options (outName "render" "h264")
           (ReadStream "/tmp/out.mp4") Public).
  vm_compute. tauto.
Defined.

(** * Further properties of the launch *)

(** ** The fan-out, exactly *)

Lemma answered_calls w calls : map fst (answered w calls) = calls.
Proof.
  assert (H : forall (l : list Call) (n : nat),
             map snd (combine (seq n (List.length l)) l) = l).
  { induction l as [|c l IH]; intros n; simpl; [reflexivity|].
    now rewrite IH. }
  unfold answered. rewrite map_map. simpl. exact (H calls 0%nat).
Qed.

Lemma joinAll_cases (l : list (Call * bool)) :
  (joinAll l = (map (fun c => Settled c true) (map fst l), inr tt) /\
   Forall (fun cb => snd cb = true) l)
  \/
  (exists c, In c (map fst l) /\ result (joinAll l) = inl (Rejected c) /\
             Exists (fun cb => snd cb = false) l).
Proof.
  induction l as [|[c ok] l IH]; [left; split; [reflexivity|constructor]|].
  cbn [joinAll]. destruct ok.
  - destruct IH as [(Hrun & Hall) | (c' & Hin & Hres & Hex)].
    + left. split.
      * unfold settle, ofBool, bind. rewrite Hrun. reflexivity.
      * constructor; [reflexivity | exact Hall].
    + right. exists c'. split; [right; exact Hin|]. split.
      * unfold settle, ofBool, bind.
        destruct (joinAll l) as [t r]. simpl in *. exact Hres.
      * apply Exists_cons_tl, Hex.
  - right. exists c. split; [left; reflexivity|]. split; [reflexivity|].
    apply Exists_cons_hd. reflexivity.
Qed.

Lemma fire_started_class groups :
  Forall DispatchStart (map Started (fireCalls groups)).
Proof.
  apply Forall_forall. intros e He. apply in_map_iff in He.
  destruct He as (c & <- & Hc).
  pose proof (fireCalls_invoke groups) as Hall.
  rewrite Forall_forall in Hall. destruct (Hall c Hc) as (i & ps & ->).
  constructor.
Qed.

Lemma fire_settled_class groups :
  Forall DispatchJoin (map (fun c => Settled c true) (fireCalls groups)).
Proof.
  apply Forall_forall. intros e He. apply in_map_iff in He.
  destruct He as (c & <- & Hc).
  pose proof (fireCalls_invoke groups) as Hall.
  rewrite Forall_forall in Hall. destruct (Hall c Hc) as (i & ps & ->).
  constructor.
Qed.

Lemma wp_startAll_fire_exact groups post :
  (Forall DispatchStart (map Started (fireCalls groups)) ->
   post (map Started (fireCalls groups)) (inr tt)) ->
  wp (startAll (fireCalls groups)) post.
Proof.
  intros H. unfold wp. rewrite startAll_run. simpl. apply H.
  apply fire_started_class.
Qed.

Lemma wp_joinAll_fire_exact w groups post :
  (Forall DispatchJoin (map (fun c => Settled c true) (fireCalls groups)) ->
   Forall (fun cb => snd cb = true) (answered w (fireCalls groups)) ->
   post (map (fun c => Settled c true) (fireCalls groups)) (inr tt)) ->
  (forall t i ps,
     Forall DispatchJoin t ->
     Exists (fun cb => snd cb = false) (answered w (fireCalls groups)) ->
     post t (inl (Rejected (Invoke i ps)))) ->
  wp (joinAll (answered w (fireCalls groups))) post.
Proof.
  intros Hok Hko.
  destruct (joinAll_cases (answered w (fireCalls groups)))
    as [(Hrun & Hall) | (c & Hin & Hres & Hex)].
  - unfold wp. rewrite Hrun, answered_calls. simpl.
    apply Hok; [apply fire_settled_class | exact Hall].
  - rewrite answered_calls in Hin.
    pose proof (fireCalls_invoke groups) as Hall.
    rewrite Forall_forall in Hall. destruct (Hall c Hin) as (i & ps & ->).
    unfold wp. rewrite Hres. apply Hko; [|exact Hex].
    eapply Forall_impl; [|apply joinAll_settled].
    intros e (c & ok & -> & Hc). rewrite answered_calls in Hc.
    destruct (Hall c Hc) as (i' & ps' & ->). constructor.
Qed.

Ltac step2 :=
  first
    [ lazymatch goal with
      | |- wp (startAll (fireCalls _)) _ =>
          apply wp_startAll_fire_exact; intros ?
      | |- wp (joinAll (answered _ (fireCalls _))) _ =>
          apply wp_joinAll_fire_exact; [intros ? ? | intros ? ? ? ? ?]
      end; cbv beta iota; cbn [app]
    | step ].

Ltac launch2 w p o Q :=
  apply (wp_whole (innerLaunchHandler w (PLaunch p) o) Q);
  unfold innerLaunchHandler; repeat step2;
  unfold handled, trace, result, fst, snd.


(** ** Failures *)

(** X1. The handler throws in exactly two cases: the request is not a launch
    request, and then nothing at all was done, not even the record of the
    error; or the inner launch threw and the store rejected the record
    of that error. *)
Theorem handler_throws_iff (w : World) (params : LambdaPayload) (o : Options)
    (e : Exn) :
  result (launchHandler w params o) = inl e <->
  ((forall p, params <> PLaunch p) /\ e = ExpectedLaunchType /\
   trace (launchHandler w params o) = [])
  \/
  (exists p err,
     params = PLaunch p /\
     result (innerLaunchHandler w params o) = inl err /\
     errorWritten w = false /\
     e = Rejected (WriteLambdaError (fatalError w err))).
Proof.
  destruct params as [p|r|ps rid|].
  - rewrite launchHandler_handled.
    destruct (innerLaunchHandler w (PLaunch p) o) as [t [err|[]]] eqn:Hin;
      simpl.
    + destruct (errorWritten w) eqn:Hw; split.
      * discriminate.
      * intros [(Hp & _) | (p' & err' & _ & _ & Hf & _)];
          [now elim (Hp p) | discriminate].
      * intros H. injection H as <-. right. exists p, err. auto.
      * intros [(Hp & _) | (p' & err' & _ & Herr & _ & ->)];
          [now elim (Hp p)|]. injection Herr as ->. reflexivity.
    + split; [discriminate|].
      intros [(Hp & _) | (p' & err' & _ & Herr & _)];
        [now elim (Hp p) | discriminate].
  - simpl. split.
    + intros H. injection H as <-. left. repeat split. discriminate.
    + intros [(_ & -> & _) | (p' & _ & Hp & _)];
        [reflexivity | discriminate].
  - simpl. split.
    + intros H. injection H as <-. left. repeat split. discriminate.
    + intros [(_ & -> & _) | (p' & _ & Hp & _)];
        [reflexivity | discriminate].
  - simpl. split.
    + intros H. injection H as <-. left. repeat split. discriminate.
    + intros [(_ & -> & _) | (p' & _ & Hp & _)];
        [reflexivity | discriminate].
Qed.

Lemma handler_throws_iff_witness :
  result (launchHandler Sample.world POtherRoutine Sample.options) =
    inl ExpectedLaunchType.
Proof.
  apply (proj2 (handler_throws_iff Sample.world POtherRoutine Sample.options
                  ExpectedLaunchType)).
  left. repeat split. discriminate.
Defined.

(** X2. Whatever validation fails (frames per lambda, duration, fps, height,
    width or privacy of the composition), the inner launch has by then
    written nothing to the store and submitted no invocation; the record
    of the error is the only store write of the handler. *)
Theorem validation_failure_writes_nothing
    (w : World) (p : LaunchParams) (o : Options) (err : Exn) :
  result (innerLaunchHandler w (PLaunch p) o) = inl err ->
  isValidationError err = true ->
  filter isStoreWrite (trace (innerLaunchHandler w (PLaunch p) o)) = [] /\
  filter isInvocation (trace (innerLaunchHandler w (PLaunch p) o)) = [] /\
  filter isStoreWrite (trace (launchHandler w (PLaunch p) o)) =
    [Started (WriteLambdaError (fatalError w err))].
Proof.
  intros Herr Hkind.
  assert (H : filter isStoreWrite
                (trace (innerLaunchHandler w (PLaunch p) o)) = [] /\
              filter isInvocation
                (trace (innerLaunchHandler w (PLaunch p) o)) = []).
  { revert err Herr Hkind.
    launch2 w p o
      (fun m : Run unit =>
         forall err, result m = inl err -> isValidationError err = true ->
           filter isStoreWrite (trace m) = [] /\
           filter isInvocation (trace m) = []).
    all: intros err Herr Hkind; try discriminate.
    all: injection Herr as <-; try discriminate.
    all: split; reflexivity. }
  destruct H as [Hw Hi]. repeat split; try assumption.
  rewrite launchHandler_handled, (handled_throws w _ Herr).
  unfold trace at 1. cbn [fst]. rewrite filter_app, Hw. reflexivity.
Qed.

Lemma validation_failure_writes_nothing_witness :
  filter isStoreWrite
    (trace (innerLaunchHandler Sample.world
              (PLaunch (Sample.withFramesPerLambda (Some (-3)) Sample.params))
              Sample.options)) = [] /\
  filter isInvocation
    (trace (innerLaunchHandler Sample.world
              (PLaunch (Sample.withFramesPerLambda (Some (-3)) Sample.params))
              Sample.options)) = [] /\
  filter isStoreWrite
    (trace (launchHandler Sample.world
              (PLaunch (Sample.withFramesPerLambda (Some (-3)) Sample.params))
              Sample.options)) =
    [Started (WriteLambdaError
                (fatalError Sample.world (Invalid FramesPerLambda)))].
Proof.
  apply (validation_failure_writes_nothing Sample.world
           (Sample.withFramesPerLambda (Some (-3)) Sample.params)
           Sample.options (err := Invalid FramesPerLambda)).
  - reflexivity.
  - reflexivity.
Defined.

(** ** Order of the phases *)

Lemma noneAfter_app a b (t1 t2 : list Event) :
  noneAfter a b (t1 ++ t2) =
  noneAfter a b t1 && noneAfter a b t2 &&
  (negb (existsb b t1) || negb (existsb a t2)).
Proof.
  induction t1 as [|e t1 IH]; simpl.
  - now rewrite andb_true_r.
  - rewrite IH, existsb_app.
    destruct (b e), (existsb a t1), (existsb a t2), (existsb b t1),
      (noneAfter a b t1), (noneAfter a b t2); reflexivity.
Qed.

Lemma class_noneAfter_a C (t : list Event) (Ht : Forall C t) a b :
  (forall e, C e -> a e = false) -> noneAfter a b t = true.
Proof.
  intros Ha. induction t as [|e t IH]; [reflexivity|].
  apply Forall_cons_iff in Ht. destruct Ht as [He Ht].
  simpl. rewrite (class_existsb Ht a Ha), (IH Ht). simpl.
  now rewrite orb_true_r.
Qed.

Lemma class_noneAfter_b C (t : list Event) (Ht : Forall C t) a b :
  (forall e, C e -> b e = false) -> noneAfter a b t = true.
Proof.
  intros Hb. induction t as [|e t IH]; [reflexivity|].
  apply Forall_cons_iff in Ht. destruct Ht as [He Ht].
  simpl. rewrite (Hb e He), (IH Ht). reflexivity.
Qed.

Lemma noneAfter_split a b (t t1 t2 : list Event) (x : Event) :
  noneAfter a b t = true ->
  t = t1 ++ x :: t2 ->
  b x = true -> existsb a t2 = false.
Proof.
  intros H -> Hx. rewrite noneAfter_app in H. simpl in H.
  rewrite Hx in H. simpl in H.
  destruct (existsb a t2); [|reflexivity].
  simpl in H. rewrite andb_false_r in H. discriminate.
Qed.

Lemma flat_map_class {X} C (t : list Event) (Ht : Forall C t)
    (f : Event -> list X) :
  (forall e, C e -> f e = []) -> flat_map f t = [].
Proof.
  intros Hf. induction t as [|e t IH]; [reflexivity|].
  apply Forall_cons_iff in Ht. destruct Ht as [He Ht].
  simpl. rewrite (Hf e He), (IH Ht). reflexivity.
Qed.

Ltac pieces2 :=
  repeat first
    [ progress cbn
    | rewrite forallb_app
    | rewrite existsb_app
    | rewrite guardedBy_app
    | rewrite noneAfter_app
    | rewrite filter_app
    | rewrite flat_map_app
    | rewrite String.eqb_refl
    | rewrite Z.eqb_refl
    | rewrite Nat.eqb_refl
    | rewrite privacyEqb_refl
    | rewrite orb_true_r
    | rewrite andb_true_r
    | rewrite orb_false_r
    | match goal with
      | H : Forall _ ?t |- context [forallb ?P ?t] =>
          rewrite (class_forallb H P) by class_case
      | H : Forall _ ?t |- context [existsb ?P ?t] =>
          rewrite (class_existsb H P) by class_case
      | H : Forall _ ?t |- context [guardedBy ?g ?b ?t] =>
          rewrite (class_guardedBy H g b) by class_case
      | H : Forall _ ?t |- context [noneAfter ?a ?b ?t] =>
          first [ rewrite (class_noneAfter_a H a b) by class_case
                | rewrite (class_noneAfter_b H a b) by class_case ]
      | H : Forall _ ?t |- context [filter ?P ?t] =>
          rewrite (class_filter H P) by class_case
      | H : Forall _ ?t |- context [flat_map ?f ?t] =>
          rewrite (flat_map_class H f) by class_case
      end ].

(** ** What the launch dispatches *)

Lemma invocations_fire groups :
  flat_map invocationOf (map Started (fireCalls groups)) =
  combine (seq 0 (List.length groups)) groups.
Proof.
  unfold fireCalls. generalize 0%nat.
  induction groups as [|g groups IH]; intros n; [reflexivity|].
  simpl. now rewrite IH.
Qed.

Lemma map_snd_combine_seq {A} (l : list A) :
  forall n, map snd (combine (seq n (List.length l)) l) = l.
Proof.
  induction l as [|a l IH]; intros n; simpl; [reflexivity|].
  now rewrite IH.
Qed.

Lemma map_fst_combine_seq {A} (l : list A) :
  forall n, map fst (combine (seq n (List.length l)) l) = seq n (List.length l).
Proof.
  induction l as [|a l IH]; intros n; simpl; [reflexivity|].
  now rewrite IH.
Qed.

(** Once the RenderMetadata is durable, the fire invocations of the run
    are the groups of [chunk], in order, numbered from 0. *)
Lemma launch_invocations w p o :
  existsb (isMetadataDurable p) (trace (launchHandler w (PLaunch p) o)) = true ->
  exists fpl opt comp chunks used,
    framesPerLambda p = Some fpl /\
    optimization w = Fulfilled opt /\
    validatedComposition w = Fulfilled comp /\
    planFrameRanges w (ceilDiv (durationInFrames comp) fpl) fpl
      (durationInFrames comp) opt (enableChunkOptimization p)
      = (chunks, used) /\
    flat_map invocationOf (trace (launchHandler w (PLaunch p) o)) =
      combine (seq 0 (roundSqrt (List.length chunks)))
        (chunk (lambdaPayloads p comp chunks)
           (roundSqrt (List.length chunks))).
Proof.
  rewrite launchHandler_handled.
  launch2 w p o
    (fun m =>
       existsb (isMetadataDurable p) (trace (handled w m)) = true ->
       exists fpl opt comp chunks used,
         framesPerLambda p = Some fpl /\
         optimization w = Fulfilled opt /\
         validatedComposition w = Fulfilled comp /\
         planFrameRanges w (ceilDiv (durationInFrames comp) fpl) fpl
           (durationInFrames comp) opt (enableChunkOptimization p)
           = (chunks, used) /\
         flat_map invocationOf (trace (handled w m)) =
           combine (seq 0 (roundSqrt (List.length chunks)))
             (chunk (lambdaPayloads p comp chunks)
                (roundSqrt (List.length chunks)))).
  all: pieces2; intros Hex; try discriminate Hex.
  all: do 5 eexists.
  all: split; [reflexivity|].
  all: split; [eassumption|].
  all: split; [eassumption|].
  all: split; [eassumption|].
  all: pieces2; rewrite ?invocations_fire, ?chunk_length, ?app_nil_r;
       reflexivity.
Qed.

(** C5. In every launch that gets to dispatch (the RenderMetadata is
    durable), with [chunks] the planned chunk list and [invokers] the
    rounding of the square root of the number of chunks to the nearest
    integer: the launch submits exactly [invokers] fire invocations,
    numbered from 0; the [i]-th carries the [i]-th group of the cut of
    the payload list, one payload per chunk, into [invokers] groups; the
    groups, laid end to end, are the payload list itself (contiguous,
    nothing lost, nothing twice); and when there are at least [invokers]
    chunks no group is empty. *)
Theorem dispatch_groups_partition
    (w : World) (p : LaunchParams) (o : Options) :
  existsb (isMetadataDurable p) (trace (launchHandler w (PLaunch p) o)) = true ->
  exists fpl opt comp chunks used,
    framesPerLambda p = Some fpl /\
    optimization w = Fulfilled opt /\
    validatedComposition w = Fulfilled comp /\
    planFrameRanges w (ceilDiv (durationInFrames comp) fpl) fpl
      (durationInFrames comp) opt (enableChunkOptimization p)
      = (chunks, used) /\
    let n := List.length chunks in
    let invokers := roundSqrt n in
    let payloads := lambdaPayloads p comp chunks in
    let submitted :=
      flat_map invocationOf (trace (launchHandler w (PLaunch p) o)) in
    ((4 * n < (2 * invokers + 1) * (2 * invokers + 1))%nat /\
     (invokers = O \/ (2 * invokers - 1) * (2 * invokers - 1) <= 4 * n)%nat) /\
    List.length submitted = invokers /\
    map fst submitted = seq 0 invokers /\
    map snd submitted = chunk payloads invokers /\
    List.length payloads = n /\
    List.concat (map snd submitted) = payloads /\
    ((invokers <= n)%nat -> Forall (fun g => g <> []) (map snd submitted)).
Proof.
  intros Hex.
  destruct (launch_invocations w p o Hex)
    as (fpl & opt & comp & chunks & used & Hf & Ho & Hc & Hp & Hsub).
  exists fpl, opt, comp, chunks, used.
  repeat (split; [assumption|]).
  cbv zeta. rewrite Hsub.
  destruct (chunk_groups_partition p comp chunks)
    as (Hnear & Hlen & Hgroups & Hconcat & Hnonempty).
  cbv zeta in *.
  remember (roundSqrt (List.length chunks)) as k eqn:Ek.
  remember (chunk (lambdaPayloads p comp chunks) k) as groups eqn:Eg.
  clear Ek Eg. subst k.
  rewrite map_fst_combine_seq, map_snd_combine_seq.
  rewrite length_combine, length_seq, Nat.min_id.
  repeat split; try assumption; try reflexivity.
  - apply Hnear.
  - apply Hnear.
Qed.

Lemma dispatch_groups_partition_witness :
  exists fpl opt comp chunks used,
    framesPerLambda Sample.params = Some fpl /\
    optimization Sample.world = Fulfilled opt /\
    validatedComposition Sample.world = Fulfilled comp /\
    planFrameRanges Sample.world (ceilDiv (durationInFrames comp) fpl) fpl
      (durationInFrames comp) opt (enableChunkOptimization Sample.params)
      = (chunks, used) /\
    let n := List.length chunks in
    let invokers := roundSqrt n in
    let payloads := lambdaPayloads Sample.params comp chunks in
    let submitted :=
      flat_map invocationOf
        (trace (launchHandler Sample.world (PLaunch Sample.params)
                  Sample.options)) in
    ((4 * n < (2 * invokers + 1) * (2 * invokers + 1))%nat /\
     (invokers = O \/ (2 * invokers - 1) * (2 * invokers - 1) <= 4 * n)%nat) /\
    List.length submitted = invokers /\
    map fst submitted = seq 0 invokers /\
    map snd submitted = chunk payloads invokers /\
    List.length payloads = n /\
    List.concat (map snd submitted) = payloads /\
    ((invokers <= n)%nat -> Forall (fun g => g <> []) (map snd submitted)).
Proof.
  apply (dispatch_groups_partition Sample.world Sample.params Sample.options).
  reflexivity.
Defined.

(** Scenario A in the run: 100 frames in chunks of 20; the launch submits
    two fire invocations, numbered 0 and 1, of three and two payloads. *)
Example scenario_A_dispatch :
  map (fun ig : nat * list RendererPayload =>
         (fst ig, List.length (snd ig)))
      (flat_map invocationOf
         (trace (launchHandler Sample.world (PLaunch Sample.params)
                   Sample.options))) = [(0, 3); (1, 2)]%nat.
Proof. reflexivity. Qed.

Lemma launch_fanout_concurrent w p o :
  noneAfter isInvocation isSubmissionSettled
    (trace (launchHandler w (PLaunch p) o)) = true.
Proof.
  rewrite launchHandler_handled.
  launch w p o
    (fun m => noneAfter isInvocation isSubmissionSettled
                (trace (handled w m)) = true).
  all: pieces2; reflexivity.
Qed.

(** X3. The fire groups are submitted together: once the launch has looked
    at the answer to one submission, it submits no further group. *)
Theorem submissions_precede_their_answers
    (w : World) (p : LaunchParams) (o : Options)
    (t1 t2 : list Event) (e : Event) :
  trace (launchHandler w (PLaunch p) o) = t1 ++ e :: t2 ->
  isSubmissionSettled e = true ->
  existsb isInvocation t2 = false.
Proof.
  intros Ht He.
  exact (noneAfter_split _ _ _ _ _ (launch_fanout_concurrent w p o) Ht He).
Qed.

Lemma submissions_precede_their_answers_witness :
  existsb isInvocation
    (skipn 11 (trace (launchHandler Sample.world (PLaunch Sample.params)
                        Sample.options))) = false.
Proof.
  apply (submissions_precede_their_answers Sample.world Sample.params
           Sample.options
           (firstn 10 (trace (launchHandler Sample.world
                                (PLaunch Sample.params) Sample.options)))
           (skipn 11 (trace (launchHandler Sample.world
                               (PLaunch Sample.params) Sample.options)))
           (nth 10 (trace (launchHandler Sample.world
                             (PLaunch Sample.params) Sample.options))
                ConsoleLog)).
  - vm_compute. reflexivity.
  - vm_compute. reflexivity.
Defined.

Lemma launch_output_guards w p o :
  guardedBy isConcatDone isOutputUpload
    (trace (launchHandler w (PLaunch p) o)) = true /\
  guardedBy isOutputDurable isFinalisation
    (trace (launchHandler w (PLaunch p) o)) = true /\
  guardedBy (isMetadataDurable p) isConcatStart
    (trace (launchHandler w (PLaunch p) o)) = true.
Proof.
  rewrite launchHandler_handled.
  launch w p o
    (fun m =>
       guardedBy isConcatDone isOutputUpload (trace (handled w m)) = true /\
       guardedBy isOutputDurable isFinalisation (trace (handled w m)) = true /\
       guardedBy (isMetadataDurable p) isConcatStart
         (trace (handled w m)) = true).
  all: repeat split; pieces2; reflexivity.
Qed.

(** X4. The phases of the launch come in order: concatenation starts only
    after the RenderMetadata is durable; the merged artifact is uploaded
    only after the concatenator has delivered it; and error inspection,
    cleanup of the store, the PostRenderManifest and the removal of the
    local copy start only after the upload of the artifact succeeded. *)
Theorem phases_in_order
    (w : World) (p : LaunchParams) (o : Options)
    (t1 t2 : list Event) (e : Event) :
  trace (launchHandler w (PLaunch p) o) = t1 ++ e :: t2 ->
  (isConcatStart e = true ->
   exists m, In (Settled (metadataWrite p m) true) t1) /\
  (isOutputUpload e = true -> In (Settled ConcatVideosS3 true) t1) /\
  (isFinalisation e = true ->
   exists key body pr,
     In (Settled (LambdaWriteFile key body pr) true) t1 /\
     isOutputUpload (Started (LambdaWriteFile key body pr)) = true).
Proof.
  intros Ht.
  destruct (launch_output_guards w p o) as (H1 & H2 & H3).
  split; [|split]; intros He.
  - destruct (guardedBy_split _ _ _ _ _ H3 Ht He) as (e' & Hin & He').
    destruct e' as [c|c ok|]; try discriminate.
    destruct c as [| | |key body pr| | | | | | | | | | |]; try discriminate.
    destruct key as [r|r|r c]; try discriminate.
    destruct body as [m|s|f]; try discriminate.
    destruct pr; try discriminate.
    destruct ok; try discriminate.
    simpl in He'. apply String.eqb_eq in He'. subst r.
    exists m. exact Hin.
  - destruct (guardedBy_split _ _ _ _ _ H1 Ht He) as (e' & Hin & He').
    destruct e' as [c|c ok|]; try discriminate.
    destruct c; try discriminate.
    destruct ok; try discriminate. exact Hin.
  - destruct (guardedBy_split _ _ _ _ _ H2 Ht He) as (e' & Hin & He').
    destruct e' as [c|c ok|]; try discriminate.
    destruct c as [| | |key body pr| | | | | | | | | | |]; try discriminate.
    destruct key as [r|r|r c]; try discriminate.
    destruct ok; try discriminate.
    exists (outName r c), body, pr. split; [exact Hin | reflexivity].
Qed.

Lemma phases_in_order_witness :
  In (Settled ConcatVideosS3 true)
     (firstn 16 (trace (launchHandler Sample.world (PLaunch Sample.params)
                          Sample.options))).
Proof.
  apply (proj1 (proj2
           (phases_in_order Sample.world Sample.params Sample.options
              (firstn 16 (trace (launchHandler Sample.world
                                   (PLaunch Sample.params) Sample.options)))
              (skipn 17 (trace (launchHandler Sample.world
                                  (PLaunch Sample.params) Sample.options)))
              (nth 16 (trace (launchHandler Sample.world
                                (PLaunch Sample.params) Sample.options))
                   ConsoleLog)
              ltac:(vm_compute; reflexivity)))).
  vm_compute. reflexivity.
Defined.

(** ** What reaches the store *)

Lemma launch_metadataRule w p o :
  forallb (metadataRule w p) (trace (launchHandler w (PLaunch p) o)) = true.
Proof.
  rewrite launchHandler_handled.
  launch w p o
    (fun m => forallb (metadataRule w p) (trace (handled w m)) = true).
  all: pieces2; reflexivity.
Qed.

(** X5. The RenderMetadata a launch writes estimates the total number of
    invocations as the number of chunks plus the number of invokers (the
    launch itself is not counted), the number of render invocations as
    the number of chunks, and carries the start time read from the clock,
    the render id and codec of the request and the id of the
    composition. *)
Theorem metadata_estimates
    (w : World) (p : LaunchParams) (o : Options) (m : RenderMetadata) :
  In (Started (metadataWrite p m)) (trace (launchHandler w (PLaunch p) o)) ->
  estimatedTotalLambdaInvokations m =
    (totalChunks m + roundSqrt (totalChunks m))%nat /\
  estimatedRenderLambdaInvokations m = totalChunks m /\
  startedDate m = nowAtLaunch w /\
  m_renderId m = renderId p /\
  m_codec m = codec p /\
  compositionId m = compId (videoConfig m).
Proof.
  intros Hin.
  pose proof (launch_metadataRule w p o) as Hall.
  rewrite forallb_forall in Hall. specialize (Hall _ Hin).
  unfold metadataWrite in Hall. simpl in Hall.
  repeat (apply andb_true_iff in Hall; destruct Hall as [Hall ?]).
  repeat split;
    first [ now apply Nat.eqb_eq | now apply Z.eqb_eq | now apply String.eqb_eq ].
Qed.

Lemma metadata_estimates_witness :
  exists m,
    totalChunks m = 5%nat /\
    estimatedTotalLambdaInvokations m = 7%nat /\
    estimatedRenderLambdaInvokations m = 5%nat.
Proof.
  pose (tr := trace (launchHandler Sample.world (PLaunch Sample.params)
                       Sample.options)).
  pose (m := match nth 6 tr ConsoleLog with
             | Started (LambdaWriteFile _ (JsonRenderMetadata m) _) => m
             | _ => {| startedDate := 0; videoConfig := Sample.comp;
                       totalChunks := 0; estimatedTotalLambdaInvokations := 0;
                       estimatedRenderLambdaInvokations := 0;
                       compositionId := ""; m_codec := "";
                       usesOptimizationProfile := false;
                       m_framesPerLambda := None; m_renderId := "" |}
             end).
  assert (Hin : In (Started (metadataWrite Sample.params m)) tr).
  { vm_compute. do 6 right. left. reflexivity. }
  destruct (metadata_estimates Sample.world Sample.params Sample.options m Hin)
    as (Ht & Hr & _).
  exists m. split; [reflexivity|]. split; [rewrite Ht | rewrite Hr]; reflexivity.
Defined.

(** ** The optimization profile *)

Lemma launch_optimization_gate w p o :
  existsb isOptimizationWrite (trace (launchHandler w (PLaunch p) o)) = true ->
  enableChunkOptimization p = true /\
  isValidOptimizationProfile w = true /\
  fulfilled (chunkInformation w) = true /\
  (optimizationWritten w = false ->
   result (innerLaunchHandler w (PLaunch p) o) =
     inl (Rejected (if listingSettlesFirst w && negb (fulfilled (listing w))
                    then LambdaLs else WriteOptimization))
   /\ existsb isFinalisation (trace (launchHandler w (PLaunch p) o)) = false).
Proof.
  rewrite launchHandler_handled.
  launch w p o
    (fun m =>
       existsb isOptimizationWrite (trace (handled w m)) = true ->
       enableChunkOptimization p = true /\
       isValidOptimizationProfile w = true /\
       fulfilled (chunkInformation w) = true /\
       (optimizationWritten w = false ->
        result m =
          inl (Rejected (if listingSettlesFirst w
                            && negb (fulfilled (listing w))
                         then LambdaLs else WriteOptimization)) /\
        existsb isFinalisation (trace (handled w m)) = false)).
  all: pieces2; intros Hex; try discriminate Hex.
  all: split; [first [assumption | congruence]|].
  all: split; [first [assumption | congruence]|].
  all: split;
    [ match goal with
      | H : chunkInformation _ = _ |- _ => rewrite H; reflexivity
      end |].
  all: intros Hopt; try congruence.
  all: split;
    [ repeat match goal with
             | H : listing _ = _ |- _ => rewrite H; clear H
             end; reflexivity
    | pieces2; reflexivity ].
Qed.

(** X6. A new optimization profile is written only when the request enabled
    chunk optimization, the chunk timings could be collected and the
    optimized profile is valid; an invalid profile is dropped silently.
    The write is awaited, together with the listing of the bucket: when
    the store rejects the write the launch fails, with the rejection of
    the write, or with that of the listing when the listing is rejected
    too and settles first, and never gets to the inspection of errors,
    the cleanup, the PostRenderManifest or the removal of the local
    copy. *)
Theorem optimization_written_only_when_valid
    (w : World) (p : LaunchParams) (o : Options) :
  In (Started WriteOptimization) (trace (launchHandler w (PLaunch p) o)) ->
  enableChunkOptimization p = true /\
  isValidOptimizationProfile w = true /\
  chunkInformation w = Fulfilled tt /\
  (optimizationWritten w = false ->
   (listingSettlesFirst w = true -> listing w = Fails ->
    result (innerLaunchHandler w (PLaunch p) o) = inl (Rejected LambdaLs)) /\
   (listingSettlesFirst w = false \/ listing w = Fulfilled tt ->
    result (innerLaunchHandler w (PLaunch p) o)
      = inl (Rejected WriteOptimization)) /\
   forall e, In e (trace (launchHandler w (PLaunch p) o)) ->
             isFinalisation e = false).
Proof.
  intros Hin.
  assert (Hex : existsb isOptimizationWrite
                  (trace (launchHandler w (PLaunch p) o)) = true).
  { apply existsb_exists. exists (Started WriteOptimization). auto. }
  destruct (launch_optimization_gate w p o Hex) as (He & Hv & Hc & Hrej).
  split; [exact He|]. split; [exact Hv|]. split.
  { destruct (chunkInformation w) as [[]|]; [reflexivity|discriminate]. }
  intros Hopt. destruct (Hrej Hopt) as [Hres Hnone]. split; [|split].
  - intros Hfirst Hls. rewrite Hres, Hfirst, Hls. reflexivity.
  - intros [Hfirst | Hls]; rewrite Hres.
    + rewrite Hfirst. reflexivity.
    + rewrite Hls. simpl. rewrite andb_false_r. reflexivity.
  - intros e He'.
    destruct (isFinalisation e) eqn:Hf; [|reflexivity].
    assert (Hex' : existsb isFinalisation
                     (trace (launchHandler w (PLaunch p) o)) = true).
    { apply existsb_exists. exists e. auto. }
    congruence.
Qed.

Lemma optimization_written_only_when_valid_witness :
  enableChunkOptimization Sample.params = true /\
  isValidOptimizationProfile (Sample.withOptimization false Fails false)
    = true /\
  chunkInformation (Sample.withOptimization false Fails false)
    = Fulfilled tt /\
  result (innerLaunchHandler (Sample.withOptimization false Fails false)
            (PLaunch Sample.params) Sample.options)
    = inl (Rejected WriteOptimization) /\
  forall e,
    In e (trace (launchHandler (Sample.withOptimization false Fails false)
                   (PLaunch Sample.params) Sample.options)) ->
    isFinalisation e = false.
Proof.
  assert (Hin : In (Started WriteOptimization)
                  (trace (launchHandler
                            (Sample.withOptimization false Fails false)
                            (PLaunch Sample.params) Sample.options))).
  { vm_compute. do 20 right. left. reflexivity. }
  destruct (optimization_written_only_when_valid
              (Sample.withOptimization false Fails false) Sample.params
              Sample.options Hin) as (He & Hv & Hc & Hrej).
  destruct (Hrej eq_refl) as (_ & Hwrite & Hnone).
  split; [exact He|]. split; [exact Hv|]. split; [exact Hc|].
  split; [apply Hwrite; left; reflexivity | exact Hnone].
Defined.

(** When both the write of the optimization profile and the listing are
    rejected, the launch fails with the rejection that settles first. *)
Example double_rejection :
  result (innerLaunchHandler (Sample.withOptimization false Fails true)
            (PLaunch Sample.params) Sample.options)
    = inl (Rejected LambdaLs) /\
  result (innerLaunchHandler (Sample.withOptimization false Fails false)
            (PLaunch Sample.params) Sample.options)
    = inl (Rejected WriteOptimization).
Proof. split; reflexivity. Qed.

(** ** The end of a successful launch *)

(** X7. A successful launch has written one RenderMetadata, has awaited one
    EncodingProgress write, the final one, and has written one
    PostRenderManifest.  The manifest embeds the very RenderMetadata that
    was persisted before dispatch and the deletion time reported by the
    cleanup; the final snapshot counts all frames of the composition as
    encoded and carries the invocation statistics; and the encoding time
    of the final snapshot, when it has one, is the encoding time of the
    manifest (it has none only when the stop time is 0). *)
Theorem manifest_consistent (w : World) (p : LaunchParams) (o : Options) :
  result (innerLaunchHandler w (PLaunch p) o) = inr tt ->
  exists m s d c td,
    flat_map metadataOf (trace (innerLaunchHandler w (PLaunch p) o)) = [m] /\
    flat_map awaitedProgressOf (trace (innerLaunchHandler w (PLaunch p) o))
      = [s] /\
    flat_map postRenderDataOf (trace (innerLaunchHandler w (PLaunch p) o))
      = [d] /\
    concatenated w = Fulfilled c /\
    filesCleaned w = Fulfilled td /\
    pr_renderMetadata d = m /\
    pr_timeToDelete d = td /\
    framesEncoded s = totalFrames s /\
    totalFrames s = durationInFrames (videoConfig m) /\
    timeToInvoke s = timeToInvokeLambdas w /\
    (forall x, doneIn s = Some x -> x = pr_timeToEncode d) /\
    (doneIn s = None -> pr_timeToEncode d = - encodingStart c).
Proof.
  launch2 w p o
    (fun r : Run unit =>
       result r = inr tt ->
       exists m s d c td,
         flat_map metadataOf (trace r) = [m] /\
         flat_map awaitedProgressOf (trace r) = [s] /\
         flat_map postRenderDataOf (trace r) = [d] /\
         concatenated w = Fulfilled c /\
         filesCleaned w = Fulfilled td /\
         pr_renderMetadata d = m /\
         pr_timeToDelete d = td /\
         framesEncoded s = totalFrames s /\
         totalFrames s = durationInFrames (videoConfig m) /\
         timeToInvoke s = timeToInvokeLambdas w /\
         (forall x, doneIn s = Some x -> x = pr_timeToEncode d) /\
         (doneIn s = None -> pr_timeToEncode d = - encodingStart c)).
  all: try discriminate.
  all: intros _; do 5 eexists.
  all: split; [pieces2; reflexivity|].
  all: split; [pieces2; reflexivity|].
  all: split; [pieces2; reflexivity|].
  all: split; [eassumption|].
  all: split; [eassumption|].
  all: cbn [pr_renderMetadata pr_timeToDelete framesEncoded totalFrames
            timeToInvoke doneIn pr_timeToEncode videoConfig].
  all: repeat (split; [reflexivity|]).
  all: match goal with
       | |- context [?z - encodingStart _] =>
           generalize z; intros stop; destruct stop
       end.
  all: split; [intros x Hx | intros Hx]; try discriminate Hx.
  all: try (injection Hx as <-); reflexivity.
Qed.

Lemma manifest_consistent_witness :
  exists m s d c td,
    flat_map metadataOf
      (trace (innerLaunchHandler Sample.world (PLaunch Sample.params)
                Sample.options)) = [m] /\
    flat_map awaitedProgressOf
      (trace (innerLaunchHandler Sample.world (PLaunch Sample.params)
                Sample.options)) = [s] /\
    flat_map postRenderDataOf
      (trace (innerLaunchHandler Sample.world (PLaunch Sample.params)
                Sample.options)) = [d] /\
    concatenated Sample.world = Fulfilled c /\
    filesCleaned Sample.world = Fulfilled td /\
    pr_renderMetadata d = m /\
    pr_timeToDelete d = td /\
    framesEncoded s = totalFrames s /\
    totalFrames s = durationInFrames (videoConfig m) /\
    timeToInvoke s = timeToInvokeLambdas Sample.world /\
    (forall x, doneIn s = Some x -> x = pr_timeToEncode d) /\
    (doneIn s = None -> pr_timeToEncode d = - encodingStart c).
Proof.
  apply (manifest_consistent Sample.world Sample.params Sample.options).
  reflexivity.
Defined.

Ltac in_inv H :=
  cbn [In] in H;
  lazymatch type of H with
  | _ \/ _ => destruct H as [H|H]; [ | in_inv H]
  | In _ (_ ++ _) =>
      apply in_app_or in H; destruct H as [H|H]; [in_inv H | in_inv H]
  | _ => idtac
  end.

Ltac in_class H :=
  match goal with
  | Hc : Forall _ ?t |- _ =>
      match type of H with
      | In _ t =>
          let Hx := fresh "Hx" in
          pose proof (proj1 (Forall_forall _ _) Hc _ H) as Hx;
          inversion Hx
      end
  end.

(** X8. A successful launch has awaited, and seen fulfilled, every call it
    started, the final EncodingProgress write included, except the calls
    started by the progress callback (its throttled writes and the error
    records of their failures), which are left to themselves. *)
Theorem success_awaited_everything
    (w : World) (p : LaunchParams) (o : Options) (c : Call) :
  result (innerLaunchHandler w (PLaunch p) o) = inr tt ->
  In (Started c) (trace (innerLaunchHandler w (PLaunch p) o)) ->
  In (Settled c true) (trace (innerLaunchHandler w (PLaunch p) o)) \/
  exists comp,
    validatedComposition w = Fulfilled comp /\
    In (Started c)
       (snd (runProgress w p comp 0 initialProgress (observations w))).
Proof.
  launch2 w p o
    (fun r : Run unit =>
       result r = inr tt ->
       In (Started c) (trace r) ->
       In (Settled c true) (trace r) \/
       exists comp,
         validatedComposition w = Fulfilled comp /\
         In (Started c)
            (snd (runProgress w p comp 0 initialProgress (observations w)))).
  all: try discriminate.
  all: intros _ Hin.
  all: in_inv Hin.
  all: try discriminate Hin.
  all: try contradiction.
  all: try (injection Hin as <-; left; solve [find_in]).
  all: try (right; eexists; split; [eassumption|];
            match goal with
            | H : runProgress _ _ _ _ _ _ = _ |- _ => rewrite H
            end; exact Hin).
  all: try (in_class Hin; discriminate).
  all: left.
  all: apply in_map_iff in Hin; destruct Hin as (c' & Hc & Hin).
  all: injection Hc as ->.
  all: do 8 apply in_cons; apply in_or_app; right; apply in_or_app; left.
  all: apply (in_map (fun c => Settled c true)); exact Hin.
Qed.

Lemma success_awaited_everything_witness :
  In (Settled (progressWrite Sample.params
                 {| framesEncoded := 100; totalFrames := 100;
                    doneIn := Some 400; timeToInvoke := Some 70 |}) true)
     (trace (innerLaunchHandler Sample.world (PLaunch Sample.params)
               Sample.options)) \/
  exists comp,
    validatedComposition Sample.world = Fulfilled comp /\
    In (Started (progressWrite Sample.params
                   {| framesEncoded := 100; totalFrames := 100;
                      doneIn := Some 400; timeToInvoke := Some 70 |}))
       (snd (runProgress Sample.world Sample.params comp 0 initialProgress
               (observations Sample.world))).
Proof.
  apply (success_awaited_everything Sample.world Sample.params Sample.options
           (progressWrite Sample.params
              {| framesEncoded := 100; totalFrames := 100;
                 doneIn := Some 400; timeToInvoke := Some 70 |})).
  - reflexivity.
  - vm_compute. tauto.
Defined.




(** ** The plan of the chunks *)

(** X10. [chunkCount] is the least number of chunks of [framesPerLambda]
    frames that cover the composition; for a composition of at least one
    frame it lies between 1 and the number of frames. *)
Theorem chunkCount_least (frames perLambda : Z) :
  0 < perLambda ->
  frames <= ceilDiv frames perLambda * perLambda /\
  (ceilDiv frames perLambda - 1) * perLambda < frames /\
  (1 <= frames -> 1 <= ceilDiv frames perLambda <= frames).
Proof.
  intros Hb. unfold ceilDiv.
  pose proof (Z.mul_div_le (- frames) perLambda Hb) as Hlo.
  pose proof (Z.mul_succ_div_gt (- frames) perLambda Hb) as Hhi.
  set (q := - frames / perLambda) in *.
  repeat split; nia.
Qed.

Lemma chunkCount_least_witness :
  97 <= ceilDiv 97 20 * 20 /\
  (ceilDiv 97 20 - 1) * 20 < 97 /\
  (1 <= 97 -> 1 <= ceilDiv 97 20 <= 97).
Proof.
  apply (chunkCount_least 97 (perLambda := 20)). lia.
Defined.

Section ChunkIndex.

Lemma lexlt_trans x y z : lexlt x y -> lexlt y z -> lexlt x z.
Proof. unfold lexlt. lia. Qed.

Lemma lexlt_irrefl x : ~ lexlt x x.
Proof. unfold lexlt. lia. Qed.

Lemma insertByStart_in x l z :
  In z (insertByStart x l) <-> z = x \/ In z l.
Proof.
  induction l as [|y l IH]; simpl.
  - intuition.
  - destruct (fst (snd y) <=? fst (snd x)); simpl; rewrite ?IH; intuition.
Qed.

Lemma insertByStart_sorted x l :
  StronglySorted lexlt l ->
  (forall y, In y l -> (fst y < fst x)%nat) ->
  StronglySorted lexlt (insertByStart x l).
Proof.
  induction l as [|y l IH]; intros Hs Hid; simpl.
  - repeat constructor.
  - apply StronglySorted_inv in Hs. destruct Hs as [Hs Hall].
    destruct (Z.leb_spec (fst (snd y)) (fst (snd x))) as [Hle | Hgt].
    + constructor.
      * apply IH; [exact Hs|]. intros z Hz. apply Hid. now right.
      * apply Forall_forall. intros z Hz.
        apply insertByStart_in in Hz. destruct Hz as [-> | Hz].
        -- pose proof (Hid y (or_introl eq_refl)). unfold lexlt. lia.
        -- rewrite Forall_forall in Hall. auto.
    + constructor; [constructor; assumption|].
      constructor; [unfold lexlt; lia|].
      eapply Forall_impl; [|exact Hall].
      intros z Hz. simpl in Hz. eapply lexlt_trans; [|exact Hz].
      unfold lexlt. lia.
Qed.

Lemma fold_insert_sorted rest :
  forall acc,
    StronglySorted lexlt acc ->
    (forall y x, In y acc -> In x rest -> (fst y < fst x)%nat) ->
    StronglySorted lt (map fst rest) ->
    StronglySorted lexlt
      (fold_left (fun acc x => insertByStart x acc) rest acc) /\
    (forall z,
       In z (fold_left (fun acc x => insertByStart x acc) rest acc) <->
       In z acc \/ In z rest).
Proof.
  induction rest as [|x rest IH]; intros acc Hs Hlt Hids; simpl.
  - split; [exact Hs | intuition].
  - simpl in Hids. apply StronglySorted_inv in Hids.
    destruct Hids as [Hids Hx].
    destruct (IH (insertByStart x acc)) as [Hsorted Hin].
    + apply insertByStart_sorted; [exact Hs|].
      intros y Hy. apply (Hlt y x Hy). now left.
    + intros y x' Hy Hx'. apply insertByStart_in in Hy.
      destruct Hy as [-> | Hy].
      * rewrite Forall_forall in Hx. apply Hx. now apply in_map.
      * apply (Hlt y x' Hy). now right.
    + exact Hids.
    + split; [exact Hsorted|].
      intros z. rewrite Hin, insertByStart_in. intuition.
Qed.

Lemma combine_seq_nth {A} (l : list A) :
  forall s i,
    nth_error (combine (seq s (List.length l)) l) i =
    option_map (fun r => ((s + i)%nat, r)) (nth_error l i).
Proof.
  induction l as [|a l IH]; intros s i; simpl.
  - destruct i; reflexivity.
  - destruct i as [|i]; simpl.
    + now rewrite Nat.add_0_r.
    + rewrite IH. destruct (nth_error l i); simpl; [|reflexivity].
      do 2 f_equal. lia.
Qed.

Lemma combine_seq_fst {A} (l : list A) :
  forall s, map fst (combine (seq s (List.length l)) l) = seq s (List.length l).
Proof.
  induction l as [|a l IH]; intros s; simpl; [reflexivity|].
  now rewrite IH.
Qed.

Lemma seq_sorted n : forall s, StronglySorted lt (seq s n).
Proof.
  induction n as [|n IH]; intros s; simpl; constructor; [apply IH|].
  apply Forall_forall. intros x Hx. apply in_seq in Hx. lia.
Qed.

Lemma sortedChunks_sorted chunks :
  StronglySorted lexlt (sortedChunks chunks) /\
  (forall z, In z (sortedChunks chunks) <-> In z (identified chunks)).
Proof.
  unfold sortedChunks.
  destruct (fold_insert_sorted (identified chunks) (acc := []))
    as [Hs Hin].
  - constructor.
  - intros y x [].
  - unfold identified. rewrite combine_seq_fst. apply seq_sorted.
  - split; [exact Hs|]. intros z. rewrite Hin. simpl. intuition.
Qed.

Lemma indexOf_found l :
  forall i r,
    In (i, r) l ->
    exists r',
      0 <= indexOf i l < Z.of_nat (List.length l) /\
      nth_error l (Z.to_nat (indexOf i l)) = Some (i, r').
Proof.
  induction l as [|[k r0] l IH]; intros i r Hin; [destruct Hin|].
  cbn [indexOf fst]. destruct (Nat.eqb_spec k i) as [-> | Hne].
  - exists r0. split; [simpl List.length; lia | reflexivity].
  - destruct Hin as [Heq | Hin]; [congruence|].
    destruct (IH i r Hin) as (r' & Hb & Hn).
    destruct (Z.ltb_spec (indexOf i l) 0) as [Hneg | Hpos]; [lia|].
    exists r'. split; [simpl List.length; lia|].
    replace (Z.to_nat (indexOf i l + 1)) with (S (Z.to_nat (indexOf i l)))
      by lia.
    exact Hn.
Qed.

Lemma sorted_nth {A} (R : A -> A -> Prop) (l : list A) :
  StronglySorted R l ->
  forall a b x y,
    (a < b)%nat -> nth_error l a = Some x -> nth_error l b = Some y -> R x y.
Proof.
  induction 1 as [|h l Hs IH Hall]; intros a b x y Hab Ha Hb.
  - destruct a; discriminate.
  - destruct b as [|b]; [lia|]. simpl in Hb.
    destruct a as [|a]; simpl in Ha.
    + injection Ha as <-. rewrite Forall_forall in Hall.
      apply Hall. eapply nth_error_In; eauto.
    + apply (IH a b); auto. lia.
Qed.

End ChunkIndex.

(** X11. The [chunk] number of a payload is its rank in the order of the
    frame ranges by ascending start, ties broken by the position in the
    plan: it lies between 0 and the number of chunks, and a payload whose
    range starts earlier (or starts at the same frame and comes earlier
    in the plan) has the smaller number.  The payloads themselves keep
    the order of the plan. *)
Theorem chunk_number_is_rank
    (p : LaunchParams) (comp : VideoConfig) (chunks : list FrameRange)
    (i j : nat) (pi pj : RendererPayload) :
  nth_error (lambdaPayloads p comp chunks) i = Some pi ->
  nth_error (lambdaPayloads p comp chunks) j = Some pj ->
  nth_error chunks i = Some (r_frameRange pi) /\
  0 <= r_chunk pi < Z.of_nat (List.length chunks) /\
  (fst (r_frameRange pi) < fst (r_frameRange pj) \/
   (fst (r_frameRange pi) = fst (r_frameRange pj) /\ (i < j)%nat) ->
   r_chunk pi < r_chunk pj).
Proof.
  intros Hi Hj. unfold lambdaPayloads in Hi, Hj.
  rewrite nth_error_map in Hi, Hj. unfold identified in Hi, Hj.
  rewrite combine_seq_nth in Hi, Hj.
  destruct (nth_error chunks i) as [ri|] eqn:Hri; [|discriminate].
  destruct (nth_error chunks j) as [rj|] eqn:Hrj; [|discriminate].
  simpl in Hi, Hj. injection Hi as <-. injection Hj as <-.
  cbn [r_frameRange r_chunk fst snd].
  destruct (sortedChunks_sorted chunks) as [Hs Hin].
  assert (Hid : forall k r, nth_error chunks k = Some r ->
                            In (k, r) (identified chunks)).
  { intros k r Hk. apply (nth_error_In _ k). unfold identified.
    rewrite combine_seq_nth, Hk. reflexivity. }
  assert (Huniq : forall k r r', In (k, r) (identified chunks) ->
                                 nth_error chunks k = Some r' -> r = r').
  { intros k r r' Hk Hk'. apply In_nth_error in Hk. destruct Hk as [n Hn].
    unfold identified in Hn. rewrite combine_seq_nth in Hn.
    destruct (nth_error chunks n) eqn:En; [|discriminate].
    simpl in Hn. injection Hn as <- <-. congruence. }
  assert (Hlen : List.length (sortedChunks chunks) = List.length chunks).
  { assert (Hnd : NoDup (identified chunks)).
    { apply (NoDup_map_inv fst). unfold identified.
      rewrite combine_seq_fst. apply seq_NoDup. }
    assert (Hnd' : NoDup (sortedChunks chunks)).
    { clear - Hs. induction Hs as [|h l Hs IH Hall]; constructor; auto.
      intros Hh. rewrite Forall_forall in Hall.
      exact (lexlt_irrefl (Hall h Hh)). }
    transitivity (List.length (identified chunks)).
    - apply Nat.le_antisymm; apply NoDup_incl_length; auto;
        intros z Hz; apply Hin; exact Hz.
    - unfold identified. rewrite length_combine, length_seq. apply Nat.min_id. }
  assert (Hpos : forall k r, nth_error chunks k = Some r ->
             0 <= indexOf k (sortedChunks chunks)
               < Z.of_nat (List.length chunks) /\
             nth_error (sortedChunks chunks)
               (Z.to_nat (indexOf k (sortedChunks chunks))) = Some (k, r)).
  { intros k r Hk.
    destruct (indexOf_found (sortedChunks chunks) k r) as (r' & Hb & Hn).
    - apply Hin, Hid, Hk.
    - rewrite Hlen in Hb. split; [exact Hb|].
      rewrite Hn. f_equal. f_equal.
      apply (Huniq k); [|exact Hk]. apply Hin. eapply nth_error_In; eauto. }
  destruct (Hpos i ri Hri) as [Hbi Hni].
  destruct (Hpos j rj Hrj) as [Hbj Hnj].
  split; [reflexivity|]. split; [exact Hbi|].
  intros Hlex.
  assert (Hij : lexlt (i, ri) (j, rj)) by exact Hlex.
  set (ki := indexOf i (sortedChunks chunks)) in *.
  set (kj := indexOf j (sortedChunks chunks)) in *.
  destruct (Z.lt_trichotomy ki kj) as [Hlt | [Heq | Hgt]]; [exact Hlt| |].
  - rewrite Heq in Hni. rewrite Hni in Hnj. injection Hnj as <- <-.
    elim (lexlt_irrefl Hij).
  - assert (Hji : lexlt (j, rj) (i, ri)).
    { apply (sorted_nth Hs (a := Z.to_nat kj) (b := Z.to_nat ki)); auto. lia. }
    elim (lexlt_irrefl (lexlt_trans Hij Hji)).
Qed.

Lemma chunk_number_is_rank_witness :
  r_chunk (Sample2.payload 1) < r_chunk (Sample2.payload 0).
Proof.
  apply (proj2 (proj2 (chunk_number_is_rank Sample.params Sample.comp
                         Sample2.shuffled 1 0 eq_refl eq_refl))).
  left. vm_compute. reflexivity.
Defined.

(** ** Failures of the progress writes *)

(** X12. Whether the store accepts or rejects the throttled writes changes
    neither the state of the reporter nor the values it tries to
    persist: a value whose write was rejected counts as uploaded and is
    not tried again.  Every rejection is recorded by one ErrorInfo that
    is not fatal, with [attempt = 1], [totalAttempts = 1] and
    [willRetry = false]. *)
Theorem progress_unaffected_by_rejections
    (w w' : World) (p : LaunchParams) (comp : VideoConfig)
    (obs : list Observation) :
  forall (k k' : nat) (st : ProgressState),
    fst (runProgress w p comp k st obs) =
      fst (runProgress w' p comp k' st obs) /\
    persisted (snd (runProgress w p comp k st obs)) =
      persisted (snd (runProgress w' p comp k' st obs)) /\
    forallb isNonFatalRecord (snd (runProgress w p comp k st obs)) = true /\
    countb isRejection (snd (runProgress w p comp k st obs)) =
      countb isErrorRecord (snd (runProgress w p comp k st obs)).
Proof.
  induction obs as [|o obs IH]; intros k k' st; [repeat split|].
  cbn [runProgress].
  assert (Hst : fst (onProgress w p comp k st o) =
                fst (onProgress w' p comp k' st o)).
  { unfold onProgress. destruct (PrimFloat.ltb _ _); reflexivity. }
  assert (Hp : persisted (snd (onProgress w p comp k st o)) =
               persisted (snd (onProgress w' p comp k' st o))).
  { unfold onProgress. destruct (PrimFloat.ltb _ _); [reflexivity|].
    destruct (progressWritten w k), (progressWritten w' k'); reflexivity. }
  assert (Hn : forallb isNonFatalRecord (snd (onProgress w p comp k st o))
               = true /\
               countb isRejection (snd (onProgress w p comp k st o)) =
               countb isErrorRecord (snd (onProgress w p comp k st o))).
  { unfold onProgress. destruct (PrimFloat.ltb _ _); [split; reflexivity|].
    destruct (progressWritten w k); split; reflexivity. }
  destruct (onProgress w p comp k st o) as [st1 evs1].
  destruct (onProgress w' p comp k' st o) as [st1' evs1'].
  simpl in Hst, Hp, Hn. subst st1'.
  specialize (IH (S k) (S k') st1).
  destruct (runProgress w p comp (S k) st1 obs) as [st2 evs2].
  destruct (runProgress w' p comp (S k') st1 obs) as [st2' evs2'].
  simpl in *. destruct IH as (H1 & H2 & H3 & H4). destruct Hn as [Hn1 Hn2].
  repeat split.
  - exact H1.
  - rewrite !persisted_app. congruence.
  - rewrite forallb_app, Hn1, H3. reflexivity.
  - rewrite !countb_app. congruence.
Qed.

(** * The still render flow *)

Module StillFacts.
Import Still.

Lemma guarded_app g b (t1 t2 : list Event) :
  guarded g b (t1 ++ t2) = guarded g b t1 && (existsb g t1 || guarded g b t2).
Proof.
  induction t1 as [|e t1 IH]; simpl; [reflexivity|].
  rewrite IH. destruct (b e), (g e), (guarded g b t1); reflexivity.
Qed.

Lemma guarded_split g b (t t1 t2 : list Event) (e : Event) :
  guarded g b t = true -> t = t1 ++ e :: t2 -> b e = true ->
  exists e', In e' t1 /\ g e' = true.
Proof.
  intros H -> Hb. rewrite guarded_app in H. simpl in H. rewrite Hb in H.
  simpl in H. rewrite andb_true_iff, orb_false_r in H.
  destruct H as [_ H]. apply existsb_exists in H. exact H.
Qed.

Lemma onDownloadEvent_updates w ds ev :
  Forall (fun e => exists ds', e = updateProgress w 0 ds')
         (snd (onDownloadEvent w ds ev)).
Proof.
  destruct ev as [src r | k q]; simpl.
  - repeat constructor. eauto.
  - destruct (k <? List.length ds)%nat; simpl; repeat constructor. eauto.
Qed.

Lemma runDownloads_updates w evs :
  forall ds,
    Forall (fun e => exists ds', e = updateProgress w 0 ds')
           (snd (runDownloads w ds evs)).
Proof.
  induction evs as [|ev evs IH]; intros ds; simpl; [constructor|].
  pose proof (onDownloadEvent_updates w ds ev) as H1.
  destruct (onDownloadEvent w ds ev) as [ds1 t1].
  specialize (IH ds1). destruct (runDownloads w ds1 evs) as [ds2 t2].
  simpl in *. apply Forall_app. auto.
Qed.

Lemma updates_guarded w t (Ht : OnlyUpdates w t) g b :
  (forall i, b (Update i) = false) -> guarded g b t = true.
Proof.
  intros Hb. induction t as [|e t IH]; [reflexivity|].
  apply Forall_cons_iff in Ht. destruct Ht as [(ds' & ->) Ht].
  unfold updateProgress. simpl. rewrite (IH Ht), Hb. simpl. apply orb_true_r.
Qed.

Lemma updates_existsb w t (Ht : OnlyUpdates w t) P :
  (forall i, P (Update i) = false) -> existsb P t = false.
Proof.
  intros HP. induction t as [|e t IH]; [reflexivity|].
  apply Forall_cons_iff in Ht. destruct Ht as [(ds' & ->) Ht].
  unfold updateProgress. simpl. rewrite (IH Ht), HP. reflexivity.
Qed.

(** All the paths of the flow: one for each call that may fail, and the
    path where none does. *)
Ltac paths w :=
  unfold renderStillFlow, call;
  repeat first
    [ progress cbn [bind start settle emit emits ret trace result fst snd app]
    | match goal with
      | |- context [let (_, _) := runDownloads ?w ?ds ?s in _] =>
          let H := fresh "Hdl" in
          pose proof (runDownloads_updates w s ds : OnlyUpdates w _) as H;
          destruct (runDownloads w ds s) as [? ?]; cbn [snd] in H
      | |- context [settle ?c (answers ?w ?c)] =>
          destruct (answers w c) eqn:?
      end ].

Lemma flow_teardown_guard w :
  guarded isRenderDone isTeardown (trace (renderStillFlow w)) = true.
Proof.
  paths w.
  all: repeat first
         [ progress cbn
         | rewrite guarded_app
         | match goal with
           | H : OnlyUpdates _ ?t |- context [guarded ?g ?b ?t] =>
               rewrite (updates_guarded H g b) by reflexivity
           | H : OnlyUpdates _ ?t |- context [existsb ?g ?t] =>
               rewrite (updates_existsb H g) by reflexivity
           end ].
  all: reflexivity.
Qed.


(** X13. The browser is closed, the download map cleaned and the bundle
    cleaned up only after the still was rendered: the three calls come
    after the fulfilled [renderStill]. *)
Theorem teardown_only_after_render (w : World) (t1 t2 : list Event)
    (e : Event) :
  trace (renderStillFlow w) = t1 ++ e :: t2 ->
  isTeardown e = true ->
  In (Settled RenderStill true) t1.
Proof.
  intros Ht He.
  destruct (guarded_split _ _ _ _ _ (flow_teardown_guard w) Ht He)
    as (e' & Hin & He').
  destruct e' as [c|c ok| |]; try discriminate.
  destruct c; try discriminate. destruct ok; try discriminate.
  exact Hin.
Qed.

Lemma teardown_only_after_render_witness :
  In (Settled RenderStill true)
     (firstn 30 (trace (renderStillFlow (sampleWorld true true)))).
Proof.
  apply (teardown_only_after_render (sampleWorld true true)
           (firstn 30 (trace (renderStillFlow (sampleWorld true true))))
           (skipn 31 (trace (renderStillFlow (sampleWorld true true))))
           (nth 30 (trace (renderStillFlow (sampleWorld true true)))
                (Log InfoBlank))).
  - vm_compute. reflexivity.
  - vm_compute. reflexivity.
Defined.



Lemma updatesOk_app w (t1 t2 : list Event) :
  forall d,
    updatesOk w d (t1 ++ t2) =
    updatesOk w d t1 && updatesOk w (d || existsb isRenderSettled t1) t2.
Proof.
  induction t1 as [|e t1 IH]; intros d; simpl.
  - now rewrite orb_false_r.
  - destruct e as [c|c ok|i|l]; simpl; rewrite ?IH, ?orb_false_r;
      try reflexivity.
    + now rewrite orb_assoc.
    + now rewrite andb_assoc.
Qed.

Lemma updates_ok_any w t (Ht : OnlyUpdates w t) :
  updatesOk w false t = true.
Proof.
  induction t as [|e t IH]; [reflexivity|].
  apply Forall_cons_iff in Ht. destruct Ht as [(ds' & ->) Ht].
  unfold updateProgress. cbn [updatesOk]. rewrite (IH Ht).
  unfold updateRule, stepsOf. simpl. destruct (isServeUrl w); reflexivity.
Qed.

Lemma flow_updates_ok w :
  updatesOk w false (trace (renderStillFlow w)) = true.
Proof.
  paths w.
  all: repeat first
         [ progress cbn [updatesOk orb isRenderSettled andb]
         | rewrite updatesOk_app
         | match goal with
           | H : OnlyUpdates _ ?t |- context [updatesOk _ false ?t] =>
               rewrite (updates_ok_any H)
           | H : OnlyUpdates _ ?t |- context [existsb ?g ?t] =>
               rewrite (updates_existsb H g) by reflexivity
           end ].
  all: unfold updateProgress, updateRule, stepsOf; simpl;
       rewrite ?Z.eqb_refl; destruct (isServeUrl w); reflexivity.
Qed.

(** X15. Every update of the progress display shows one frame in total and a
    concurrency of 1, with the steps of the flow ([bundling] is left out
    when the entry point is a serve URL).  The updates made before
    [renderStill] has settled show no frame done and no duration; the
    update made afterwards shows the frame done and the time the render
    took. *)
Theorem progress_display (w : World) (t1 t2 : list Event)
    (i : ProgressInput) :
  trace (renderStillFlow w) = t1 ++ Update i :: t2 ->
  concurrency (rendering_ i) = 1 /\
  totalFrames (rendering_ i) = 1 /\
  steps (rendering_ i) =
    (if isServeUrl w then [rendering] else [bundling; rendering]) /\
  (existsb isRenderSettled t1 = false ->
   frames (rendering_ i) = 0 /\ doneIn (rendering_ i) = None) /\
  (existsb isRenderSettled t1 = true ->
   frames (rendering_ i) = 1 /\
   doneIn (rendering_ i) = Some (renderDone w - renderStart w)).
Proof.
  intros Ht. pose proof (flow_updates_ok w) as H.
  rewrite Ht, updatesOk_app in H. apply andb_true_iff in H.
  destruct H as [_ H]. cbn [updatesOk orb] in H.
  apply andb_true_iff in H. destruct H as [H _].
  unfold updateRule in H.
  repeat (apply andb_true_iff in H; destruct H as [H ?]).
  apply Z.eqb_eq in H.
  match goal with Hx : (totalFrames _ =? 1) = true |- _ =>
    apply Z.eqb_eq in Hx end.
  split; [assumption|]. split; [assumption|]. split.
  - destruct (steps (rendering_ i)) as [|[] [|[] [|]]], (isServeUrl w);
      try discriminate; reflexivity.
  - split; intros Hd; rewrite Hd in *.
    + match goal with Hx : _ && _ = true |- _ =>
        apply andb_true_iff in Hx; destruct Hx as [Hf Hdone] end.
      apply Z.eqb_eq in Hf. split; [exact Hf|].
      destruct (doneIn (rendering_ i)); [discriminate|reflexivity].
    + match goal with Hx : _ && _ = true |- _ =>
        apply andb_true_iff in Hx; destruct Hx as [Hf Hdone] end.
      apply Z.eqb_eq in Hf. split; [exact Hf|].
      destruct (doneIn (rendering_ i)); [|discriminate].
      apply Z.eqb_eq in Hdone. now subst.
Qed.


Lemma progress_display_witness :
  frames (rendering_
            (inputAt 28 (trace (renderStillFlow (sampleWorld true true))))) = 1
  /\
  doneIn (rendering_
            (inputAt 28 (trace (renderStillFlow (sampleWorld true true)))))
    = Some (renderDone (sampleWorld true true)
            - renderStart (sampleWorld true true)).
Proof.
  apply (proj2 (proj2 (proj2 (proj2
           (progress_display (sampleWorld true true)
              (firstn 28 (trace (renderStillFlow (sampleWorld true true))))
              (skipn 29 (trace (renderStillFlow (sampleWorld true true))))
              (inputAt 28 (trace (renderStillFlow (sampleWorld true true))))
              ltac:(vm_compute; reflexivity)))))).
  vm_compute. reflexivity.
Defined.

(** ** The downloads *)

Lemma setProgress_length k q ds :
  List.length (setProgress k q ds) = List.length ds.
Proof.
  revert k. induction ds as [|d ds IH]; intros [|k]; simpl; auto.
Qed.

Lemma setProgress_described k q ds :
  map described (setProgress k q ds) = map described ds.
Proof.
  revert k. induction ds as [|d ds IH]; intros [|k]; simpl; auto.
  now rewrite IH.
Qed.

Lemma setProgress_rest k q ds :
  map (fun d => (downloaded d, totalBytes d)) (setProgress k q ds) =
  map (fun d => (downloaded d, totalBytes d)) ds.
Proof.
  revert k. induction ds as [|d ds IH]; intros [|k]; simpl; auto.
  now rewrite IH.
Qed.

Lemma setProgress_at k q ds j :
  (k < List.length ds)%nat ->
  progressAt j (setProgress k q ds) =
  if Nat.eqb k j then q else progressAt j ds.
Proof.
  revert k j. induction ds as [|d ds IH]; intros k j Hk; simpl in Hk; [lia|].
  destruct k as [|k], j as [|j]; simpl; try reflexivity.
  unfold progressAt in *. simpl. apply IH. lia.
Qed.

Lemma runDownloads_state w evs :
  forall ds,
    map described (fst (runDownloads w ds evs)) =
      map described ds ++ announcedBy evs /\
    map (fun d => (downloaded d, totalBytes d)) (fst (runDownloads w ds evs)) =
      map (fun d => (downloaded d, totalBytes d)) ds ++
      map (fun _ => (0, None)) (announcedBy evs) /\
    forall k,
      progressAt k (fst (runDownloads w ds evs)) =
      lastPercent k evs (List.length ds) (progressAt k ds).
Proof.
  induction evs as [|ev evs IH]; intros ds.
  - simpl. rewrite !app_nil_r. auto.
  - cbn [runDownloads].
    destruct (onDownloadEvent w ds ev) as [ds1 t1] eqn:Hev.
    specialize (IH ds1).
    destruct (runDownloads w ds1 evs) as [ds2 t2]. cbn [fst] in *.
    destruct IH as (Hd & Hr & Hp).
    destruct ev as [src r | j q]; simpl in Hev.
    + injection Hev as <- <-. cbn [announcedBy lastPercent map].
      rewrite Hd, Hr, !map_app, <- !app_assoc. simpl.
      repeat split. intros k. rewrite Hp, length_app. simpl.
      rewrite Nat.add_1_r. f_equal.
      unfold progressAt.
      destruct (Nat.lt_ge_cases k (List.length ds)) as [Hlt | Hge].
      * now rewrite nth_error_app1.
      * rewrite nth_error_app2 by exact Hge.
        rewrite (proj2 (nth_error_None ds k) Hge).
        destruct (k - List.length ds)%nat as [|[|n]]; reflexivity.
    + cbn [announcedBy lastPercent].
      destruct (Nat.ltb_spec j (List.length ds)) as [Hlt | Hge].
      * injection Hev as <- <-.
        rewrite setProgress_described in Hd. rewrite setProgress_rest in Hr.
        rewrite setProgress_length in Hp.
        repeat split; try assumption.
        intros k. rewrite Hp, (setProgress_at q ds k Hlt).
        destruct (Nat.eqb j k); reflexivity.
      * injection Hev as <- <-. repeat split; try assumption.
        intros k. rewrite Hp, andb_false_r. reflexivity.
Qed.

(** X16. The downloads shown after any sequence of announcements and progress
    reports: one entry per announcement, in order, with the announced
    name and the id drawn for it, no bytes counted and no total size;
    the progress of the [k]-th entry is the last progress reported
    through its own callback, and 0 if there was none.  A report
    therefore never touches another entry. *)
Theorem downloads_after_script (w : World) (evs : list DownloadEvent)
    (k : nat) (d : DownloadProgress) :
  nth_error (fst (runDownloads w [] evs)) k = Some d ->
  nth_error (announcedBy evs) k = Some (name d, id d) /\
  downloaded d = 0 /\ totalBytes d = None /\
  progress d = lastPercent k evs 0 0 /\
  List.length (fst (runDownloads w [] evs)) = List.length (announcedBy evs).
Proof.
  intros Hk.
  destruct (runDownloads_state w evs []) as (Hd & Hr & Hp). simpl in Hd, Hr.
  repeat split.
  - rewrite <- Hd. rewrite nth_error_map, Hk. reflexivity.
  - apply (f_equal (fun l => nth_error l k)) in Hr.
    rewrite !nth_error_map, Hk in Hr. simpl in Hr.
    destruct (nth_error (announcedBy evs) k); simpl in Hr; congruence.
  - apply (f_equal (fun l => nth_error l k)) in Hr.
    rewrite !nth_error_map, Hk in Hr. simpl in Hr.
    destruct (nth_error (announcedBy evs) k); simpl in Hr; congruence.
  - specialize (Hp k). unfold progressAt at 1 in Hp. rewrite Hk in Hp.
    rewrite Hp. unfold progressAt. destruct k; reflexivity.
  - rewrite <- Hd. now rewrite length_map.
Qed.

Lemma downloads_after_script_witness :
  nth_error (announcedBy (script (sampleWorld true true))) 0
    = Some ("a.png"%string, 1 # 3) /\
  0 = 0 /\ @None Z = None /\
  1%Q = lastPercent 0 (script (sampleWorld true true)) 0 0 /\
  List.length (fst (runDownloads (sampleWorld true true) []
                      (script (sampleWorld true true)))) =
  List.length (announcedBy (script (sampleWorld true true))).
Proof.
  apply (downloads_after_script (sampleWorld true true)
           (script (sampleWorld true true)) 0
           (d := {| id := 1 # 3; name := "a.png"; progress := 1;
                    downloaded := 0; totalBytes := None |})).
  reflexivity.
Defined.

(** ** The report of the render time *)

(** X17. The flow reports the elapsed time rounded to the nearest second
    (halves up), and writes "second" exactly when that is 1, that is for
    an elapsed time from 500 to 1499 milliseconds. *)
Theorem render_time_reported (w : World) (s : Z) (u : string) :
  In (Log (InfoTotalRenderTime s u)) (trace (renderStillFlow w)) ->
  1000 * s - 500 <= endTime w - startTime w < 1000 * s + 500 /\
  (u = "second"%string <-> 500 <= endTime w - startTime w <= 1499) /\
  (u = "second"%string \/ u = "seconds"%string).
Proof.
  intros Hin.
  assert (Hline : Log (InfoTotalRenderTime s u) = Log (renderTimeLine w)).
  { revert Hin. paths w.
    all: intros Hin.
    all: repeat match type of Hin with
           | In _ (_ ++ _) => apply in_app_or in Hin; destruct Hin as [Hin|Hin]
           | In _ (_ :: _) => destruct Hin as [Hin|Hin]; [try discriminate Hin|]
           | In _ [] => destruct Hin
           end.
    all: try (symmetry; exact Hin).
    all: match goal with
         | H : OnlyUpdates _ ?t, H' : In _ ?t |- _ =>
             unfold OnlyUpdates in H; rewrite Forall_forall in H;
             destruct (H _ H') as (? & Hx); discriminate Hx
         end. }
  unfold renderTimeLine in Hline. injection Hline as -> ->.
  unfold roundSeconds.
  set (ms := endTime w - startTime w).
  pose proof (Z.mul_div_le (ms + 500) 1000 eq_refl) as Hlo.
  pose proof (Z.mul_succ_div_gt (ms + 500) 1000 eq_refl) as Hhi.
  split; [lia|]. split.
  - destruct (Z.eqb_spec ((ms + 500) / 1000) 1) as [Heq | Hne].
    + split; [intros _; lia | reflexivity].
    + split; [discriminate|]. intros Hms. exfalso. apply Hne.
      apply Z.le_antisymm; [apply Z.lt_succ_r | ].
      * apply Z.div_lt_upper_bound; lia.
      * apply Z.div_le_lower_bound; lia.
  - destruct ((ms + 500) / 1000 =? 1); auto.
Qed.

Lemma render_time_reported_witness :
  1000 * 3 - 500 <= endTime (sampleWorld true true)
                    - startTime (sampleWorld true true) < 1000 * 3 + 500 /\
  ("seconds"%string = "second"%string <->
   500 <= endTime (sampleWorld true true)
          - startTime (sampleWorld true true) <= 1499) /\
  ("seconds"%string = "second"%string \/ "seconds"%string = "seconds"%string).
Proof.
  apply (render_time_reported (sampleWorld true true) 3 "seconds").
  vm_compute. do 32 right. left. reflexivity.
Defined.

End StillFacts.

(** * The page of the static preview *)

Module StaticPreviewFacts.
Import StaticPreview.
Local Open Scope string_scope.

Lemma append_nonempty (s t : string) : t <> "" -> s ++ t <> "".
Proof. destruct s; simpl; [auto | discriminate]. Qed.

Lemma trimEnd_app (s t : string) :
  trimEnd t <> "" -> trimEnd (s ++ t) = s ++ trimEnd t.
Proof.
  intros Ht. induction s as [|c s IH]; [reflexivity|].
  simpl. rewrite IH.
  destruct (s ++ trimEnd t) eqn:E; [|reflexivity].
  exfalso. exact (append_nonempty s Ht E).
Qed.

Lemma trimStart_skip c s :
  isWhiteSpace c = true -> trimStart (String c s) = trimStart s.
Proof. intros H. simpl. now rewrite H. Qed.

Lemma trimStart_stop c s :
  isWhiteSpace c = false -> trimStart (String c s) = String c s.
Proof. intros H. simpl. now rewrite H. Qed.

Lemma length_append (a b : string) :
  String.length (a ++ b) = (String.length a + String.length b)%nat.
Proof. induction a as [|x a IH]; simpl; [reflexivity | now rewrite IH]. Qed.

Lemma append_assoc (a b c : string) : (a ++ b) ++ c = a ++ (b ++ c).
Proof. induction a as [|x a IH]; simpl; [reflexivity | now rewrite IH]. Qed.

(** The page without the line break at either end. *)
Lemma head_split : head = nl ++ substring 1 (String.length head - 1) head.
Proof. vm_compute. reflexivity. Qed.

Lemma tail_split : tail = substring 0 (String.length tail - 1) tail ++ nl.
Proof. vm_compute. reflexivity. Qed.

(** X18. Whatever the hash and the base directory are, trimming removes the
    line break at either end of the template and nothing else: the page
    begins with the doctype, ends with the closing tag of the document,
    and both arguments stand in it as they were given, unescaped, white
    space included. *)
Theorem indexHtml_trimmed (staticHash baseDir : string) :
  template staticHash baseDir = nl ++ indexHtml staticHash baseDir ++ nl /\
  (exists rest, indexHtml staticHash baseDir = "<!DOCTYPE html>" ++ rest) /\
  (exists front, indexHtml staticHash baseDir = front ++ "</html>") /\
  indexHtml staticHash baseDir =
    substring 1 (String.length head - 1) head ++ staticHash ++ middle ++
    baseDir ++ substring 0 (String.length tail - 1) tail /\
  String.length (indexHtml staticHash baseDir) =
    (String.length head + String.length middle + String.length tail - 2 +
     String.length staticHash + String.length baseDir)%nat.
Proof.
  set (first := substring 1 (String.length head - 1) head).
  set (last := substring 0 (String.length tail - 1) tail).
  assert (Hpage : indexHtml staticHash baseDir =
                  first ++ staticHash ++ middle ++ baseDir ++ last).
  { unfold indexHtml, trim, template.
    rewrite head_split, tail_split. fold first. fold last.
    assert (Hfirst : first =
                     String (Ascii.ascii_of_nat 60) (substring 1 (String.length first - 1)
                                        first))
      by (vm_compute; reflexivity).
    set (X := staticHash ++ middle ++ baseDir ++ last ++ nl).
    assert (Hstart : trimStart ((nl ++ first) ++ X) = first ++ X).
    { rewrite Hfirst. unfold nl. cbn [append].
      rewrite trimStart_skip by reflexivity.
      rewrite trimStart_stop by reflexivity. reflexivity. }
    rewrite Hstart. unfold X.
    assert (Hlast : trimEnd (last ++ nl) = last) by (vm_compute; reflexivity).
    assert (Hne : last <> "") by (vm_compute; discriminate).
    assert (H4 : trimEnd (baseDir ++ last ++ nl) = baseDir ++ last).
    { rewrite trimEnd_app; rewrite Hlast; auto. }
    assert (H3 : trimEnd (middle ++ baseDir ++ last ++ nl) =
                 middle ++ baseDir ++ last).
    { rewrite trimEnd_app; rewrite H4; auto using append_nonempty. }
    assert (H2 : trimEnd (staticHash ++ middle ++ baseDir ++ last ++ nl) =
                 staticHash ++ middle ++ baseDir ++ last).
    { rewrite trimEnd_app; rewrite H3; auto using append_nonempty. }
    rewrite trimEnd_app; rewrite H2; auto using append_nonempty. }
  split; [|split; [|split; [|split]]].
  - unfold template. rewrite Hpage, head_split, tail_split.
    fold first. fold last. rewrite !append_assoc. reflexivity.
  - rewrite Hpage.
    assert (Hfirst : exists rest, first = "<!DOCTYPE html>" ++ rest).
    { eexists. vm_compute. reflexivity. }
    destruct Hfirst as [rest ->]. eexists. apply append_assoc.
  - rewrite Hpage.
    assert (Hlast : exists front, last = front ++ "</html>").
    { exists (substring 0 (String.length last - 7) last).
      vm_compute. reflexivity. }
    destruct Hlast as [front ->].
    exists (first ++ staticHash ++ middle ++ baseDir ++ front).
    rewrite !append_assoc. reflexivity.
  - exact Hpage.
  - rewrite Hpage. rewrite !length_append.
    assert (Hf : String.length first = (String.length head - 1)%nat)
      by (vm_compute; reflexivity).
    assert (Hl : String.length last = (String.length tail - 1)%nat)
      by (vm_compute; reflexivity).
    assert (Hh : (1 <= String.length head)%nat) by (vm_compute; lia).
    assert (Ht : (1 <= String.length tail)%nat) by (vm_compute; lia).
    lia.
Qed.

End StaticPreviewFacts.
